(** * The Svelte chat hook [useChat] (packages/core/svelte/use-chat.ts)

    A shallow embedding of the hook's orchestration code: the reactive
    stores and the module-level cache become fields of a [World] record,
    the closure variables of [useChat] become a [Hook] record, and every
    function of the hook becomes a computation in a small state and
    exception monad in which a thrown value leaves the state changes made
    before it in place, as in JavaScript.

    The two collaborators [processChatStream] and [callApi] are not part
    of the file.  What they do to the hook is what they do through the
    callbacks the hook hands them, so one call is described by the list
    of callback invocations it makes and by how its promise settles.
    The callbacks [onResponse], [onFinish] and
    [experimental_onFunctionCall] are handed on to the collaborators as
    they are and are theirs to call.

    A request is followed from its start to the settling of its promise
    on its own: the only code of the hook that runs while it is
    suspended is the rest of a caller that did not await it, which is
    what [handleSubmit] does with [append]. *)

From stdpp Require Import gmap strings list fin_maps pretty.

Open Scope string_scope.
Open Scope list_scope.

(** ** Data model (shared/types) *)

(** Modelled from the spec: the role of a message, a string union whose
    declaration lives in shared/types; the spec lists these four. *)
Inductive Role := user | assistant | system | function.

#[global] Instance Role_eq_dec : EqDecision Role.
Proof. solve_decision. Defined.

(** A JSON payload (stream data, bodies, function definitions); the hook
    only moves such values around, so its text stands for it. *)
Inductive JSONValue := Json (text : string).

Module Message.
(** [Message | CreateMessage]: in the latter the id may be missing.
    [createdAt] is a Date, kept as its epoch milliseconds. *)
Record t := mk {
  id : option string;
  role : Role;
  content : string;
  name : option string;
  function_call : option JSONValue;
  createdAt : option Z
}.
End Message.

(** [Record<string, string> | Headers]: the headers of a request are given
    as a plain object or as an instance of the [Headers] class. *)
Inductive HeadersInit :=
| PlainHeaders (fields : gmap string string)
| HeadersInstance (fields : gmap string string).

Module RequestOptions.
Record t := mk {
  headers : option HeadersInit;
  body : option (gmap string JSONValue)
}.
End RequestOptions.

Module ChatRequestOptions.
Record t := mk {
  options : option RequestOptions.t;
  functions : option JSONValue;
  function_call : option JSONValue
}.
(** The default value [{}] of the parameter. *)
Definition empty : t := mk None None None.
End ChatRequestOptions.

Module ChatRequest.
Record t := mk {
  messages : list Message.t;
  options : option RequestOptions.t;
  functions : option JSONValue;
  function_call : option JSONValue
}.
End ChatRequest.

(** ** JavaScript values that can be thrown or reject a promise

    [catch (err)] receives any value.  The hook looks at three things:
    whether reading [.name] is possible at all, what the name is, and
    whether the value is an instance of [Error]. *)
Inductive JsValue :=
| JsNullish                                   (* null or undefined *)
| JsPlain (name : option string) (repr : string)  (* another non-Error value *)
| JsError (name : string) (message : string).     (* err instanceof Error *)

(** The TypeError raised by a property read on null or undefined; the
    text of its message is the engine's and plays no role here. *)
Definition TypeError_name : JsValue := JsError "TypeError" "name".

Definition instanceof_Error (v : JsValue) : bool :=
  match v with JsError _ _ => true | _ => false end.

(** What an async function resolves to. *)
Inductive Returned := Null | Undefined.

(** ** The hook instance and the world it acts on *)

(** The arguments to [callApi] that this file builds. *)
Module ApiCall.
Record t := mk {
  api : string;
  messages : list Message.t;
  body : gmap string JSONValue;
  credentials : option string;
  headers : gmap string string;
  abortController : option nat
}.
End ApiCall.

(** Calls that leave the hook, in the order they are made. *)
Inductive Call :=
| CallTriggerRequest (r : ChatRequest.t)   (* triggerRequest entered *)
| CallApi (a : ApiCall.t)                  (* callApi({...}) *)
| CallOnError (v : JsValue)                (* onError(err) *)
| CallAbort (c : nat)                      (* abortController.abort() *)
| CallPreventDefault.                      (* e.preventDefault() *)

(** The closure variables of one [useChat] call.  A user callback either
    returns ([None]) or throws a value. *)
Record Hook := {
  api : string;
  chatId : string;
  sendExtraMessageFields : bool;
  onError : option (JsValue -> option JsValue);
  credentials : option string;
  headers : option HeadersInit;
  body : option (gmap string JSONValue)
}.

(** [const key = `${api}|${chatId}`] *)
Definition key (h : Hook) : string := api h +:+ "|" +:+ chatId h.

(** The mutable state: the module-level [store], the writable stores of
    the hook, its [abortController] variable, and the counters behind the
    two sources of fresh values ([new AbortController()], [nanoid()]). *)
Record World := {
  store : gmap string (list Message.t);
  messages : list Message.t;
  streamData : option (list JSONValue);
  loading : bool;
  error : option JsValue;
  input : string;
  abortController : option nat;
  controllers : nat;
  ids : nat;
  trace : list Call
}.

Definition set_store (x : gmap string (list Message.t)) (w : World) : World :=
  {| store := x; messages := messages w; streamData := streamData w;
     loading := loading w; error := error w; input := input w;
     abortController := abortController w; controllers := controllers w;
     ids := ids w; trace := trace w |}.

Definition set_messages (x : list Message.t) (w : World) : World :=
  {| store := store w; messages := x; streamData := streamData w;
     loading := loading w; error := error w; input := input w;
     abortController := abortController w; controllers := controllers w;
     ids := ids w; trace := trace w |}.

Definition set_streamData (x : option (list JSONValue)) (w : World) : World :=
  {| store := store w; messages := messages w; streamData := x;
     loading := loading w; error := error w; input := input w;
     abortController := abortController w; controllers := controllers w;
     ids := ids w; trace := trace w |}.

Definition set_loading (x : bool) (w : World) : World :=
  {| store := store w; messages := messages w; streamData := streamData w;
     loading := x; error := error w; input := input w;
     abortController := abortController w; controllers := controllers w;
     ids := ids w; trace := trace w |}.

Definition set_error (x : option JsValue) (w : World) : World :=
  {| store := store w; messages := messages w; streamData := streamData w;
     loading := loading w; error := x; input := input w;
     abortController := abortController w; controllers := controllers w;
     ids := ids w; trace := trace w |}.

Definition set_input (x : string) (w : World) : World :=
  {| store := store w; messages := messages w; streamData := streamData w;
     loading := loading w; error := error w; input := x;
     abortController := abortController w; controllers := controllers w;
     ids := ids w; trace := trace w |}.

Definition set_abortController (x : option nat) (w : World) : World :=
  {| store := store w; messages := messages w; streamData := streamData w;
     loading := loading w; error := error w; input := input w;
     abortController := x; controllers := controllers w;
     ids := ids w; trace := trace w |}.

Definition set_controllers (x : nat) (w : World) : World :=
  {| store := store w; messages := messages w; streamData := streamData w;
     loading := loading w; error := error w; input := input w;
     abortController := abortController w; controllers := x;
     ids := ids w; trace := trace w |}.

Definition set_ids (x : nat) (w : World) : World :=
  {| store := store w; messages := messages w; streamData := streamData w;
     loading := loading w; error := error w; input := input w;
     abortController := abortController w; controllers := controllers w;
     ids := x; trace := trace w |}.

Definition set_trace (x : list Call) (w : World) : World :=
  {| store := store w; messages := messages w; streamData := streamData w;
     loading := loading w; error := error w; input := input w;
     abortController := abortController w; controllers := controllers w;
     ids := ids w; trace := x |}.

(** ** Computations: state that survives a throw *)

Inductive Result (A : Type) :=
| Ok (a : A)
| Throw (v : JsValue).
Arguments Ok {A} a.
Arguments Throw {A} v.

Definition M (A : Type) : Type := World -> Result A * World.

#[global] Instance M_ret : MRet M := fun A a w => (Ok a, w).

#[global] Instance M_bind : MBind M := fun A B k c w =>
  match c w with
  | (Ok a, w1) => k a w1
  | (Throw v, w1) => (Throw v, w1)
  end.

Definition throw {A : Type} (v : JsValue) : M A := fun w => (Throw v, w).

Definition gets {A : Type} (f : World -> A) : M A := fun w => (Ok (f w), w).

Definition modify (f : World -> World) : M unit := fun w => (Ok tt, f w).

(** [try { body } catch (err) { handler } finally { finalizer }]: the
    handler sees the state the body left; the finalizer runs last on
    every path and, returning normally, keeps the completion it found. *)
Definition try_catch_finally {A : Type}
    (body : M A) (handler : JsValue -> M A) (finalizer : M unit) : M A :=
  fun w =>
    let '(r, w1) :=
      match body w with
      | (Ok a, w1) => (Ok a, w1)
      | (Throw v, w1) => handler v w1
      end in
    match finalizer w1 with
    | (Ok _, w2) => (r, w2)
    | (Throw v, w2) => (Throw v, w2)
    end.

(** A promise nobody awaits: the computation runs, its completion (a
    value or a rejection) is dropped. *)
Definition detached {A : Type} (c : M A) : M unit :=
  fun w => (Ok tt, snd (c w)).

Definition emit (c : Call) : M unit :=
  modify (fun w => set_trace (trace w ++ [c]) w).

(** ** Store operations *)

(** Modelled from the spec: [originalMutate], the mutate function that
    sswr's [useSWR] returns, overwrites the reactive message list. *)
Definition originalMutate (data : list Message.t) : M unit :=
  modify (set_messages data).

(** [const mutate = (data) => { store[key] = data;
      return originalMutate(data); }] *)
Definition mutate (h : Hook) (data : list Message.t) : M unit :=
  modify (fun w => set_store (<[key h := data]> (store w)) w) ;;
  originalMutate data.

(** [new AbortController()]: a controller never seen before. *)
Definition new_AbortController : M nat :=
  c ← gets controllers;
  modify (set_controllers (S c)) ;;
  mret c.

(** ** getStreamedResponse *)

(** What the callbacks given to [callApi] have captured. *)
Module ApiClosure.
Record t := mk {
  chatRequest : ChatRequest.t;
  existingData : option (list JSONValue);
  previousMessages : list Message.t
}.
End ApiClosure.

(** [({ role, content, name, function_call }) => ({ role, content, ... })] *)
Definition payload_fields (m : Message.t) : Message.t :=
  Message.mk None (Message.role m) (Message.content m)
             (Message.name m) (Message.function_call m) None.

Definition constructedMessagesPayload (h : Hook) (chatRequest : ChatRequest.t)
    : list Message.t :=
  if sendExtraMessageFields h
  then ChatRequest.messages chatRequest
  else map payload_fields (ChatRequest.messages chatRequest).

(** [...(x !== undefined && { k: x })] *)
Definition spread_field (k : string) (x : option JSONValue)
    : gmap string JSONValue :=
  match x with Some v => {[ k := v ]} | None => ∅ end.

(** An object literal of spreads: later spreads win, so they stand to the
    left of the left-biased union. *)
Definition constructedBody (h : Hook) (chatRequest : ChatRequest.t)
    : gmap string JSONValue :=
  spread_field "function_call" (ChatRequest.function_call chatRequest)
  ∪ spread_field "functions" (ChatRequest.functions chatRequest)
  ∪ default ∅ (ChatRequest.options chatRequest ≫= RequestOptions.body)
  ∪ default ∅ (body h).

(** [...x] for headers: a plain object gives its fields; an instance of
    [Headers] has no own enumerable property, and a missing value has
    none either, so both give nothing. *)
Definition spread_headers (x : option HeadersInit) : gmap string string :=
  match x with
  | Some (PlainHeaders fields) => fields
  | Some (HeadersInstance _) => ∅
  | None => ∅
  end.

Definition constructedHeaders (h : Hook) (chatRequest : ChatRequest.t)
    : gmap string string :=
  spread_headers (ChatRequest.options chatRequest ≫= RequestOptions.headers)
  ∪ spread_headers (headers h).

(** The body of [getStreamedResponse] up to the point where [callApi]
    has been entered; the callbacks it passes are kept as their closure. *)
Definition getStreamedResponse (h : Hook) (chatRequest : ChatRequest.t)
    (existingData : option (list JSONValue))
    (previousMessages : list Message.t)
    (abortControllerRef : option nat) : M ApiClosure.t :=
  mutate h (ChatRequest.messages chatRequest) ;;
  emit (CallApi {|
    ApiCall.api := api h;
    ApiCall.messages := constructedMessagesPayload h chatRequest;
    ApiCall.body := constructedBody h chatRequest;
    ApiCall.credentials := credentials h;
    ApiCall.headers := constructedHeaders h chatRequest;
    ApiCall.abortController := abortControllerRef |}) ;;
  mret (ApiClosure.mk chatRequest existingData previousMessages).

(** [appendMessage(message) { mutate([...chatRequest.messages, message]); }] *)
Definition appendMessage (h : Hook) (cl : ApiClosure.t) (message : Message.t)
    : M unit :=
  mutate h (ChatRequest.messages (ApiClosure.chatRequest cl) ++ [message]).

(** [restoreMessagesOnFailure() { mutate(previousMessages); }] *)
Definition restoreMessagesOnFailure (h : Hook) (cl : ApiClosure.t) : M unit :=
  mutate h (ApiClosure.previousMessages cl).

(** [onUpdate(merged, data)] *)
Definition onUpdate (h : Hook) (cl : ApiClosure.t)
    (merged : list Message.t) (data : option (list JSONValue)) : M unit :=
  mutate h (ChatRequest.messages (ApiClosure.chatRequest cl) ++ merged) ;;
  modify (set_streamData
            (Some (default [] (ApiClosure.existingData cl) ++ default [] data))).

(** ** The streaming collaborator, seen from the hook *)

(** One thing the collaborator does to the hook while a request runs. *)
Inductive StreamEvent :=
| InvokeGetStreamedResponse
| InvokeUpdateChatRequest (chatRequestParam : ChatRequest.t)
| InvokeAppendMessage (message : Message.t)
| InvokeRestoreMessagesOnFailure
| InvokeOnUpdate (merged : list Message.t) (data : option (list JSONValue)).

Inductive Settles :=
| Resolves
| Rejects (err : JsValue).

(** One run of [processChatStream]: what it does before its promise is
    handed back to [triggerRequest] (and control to whoever called an
    unawaited [append]), what it does afterwards, and how it settles. *)
Record StreamRun := {
  early : list StreamEvent;
  late : list StreamEvent;
  settles : Settles
}.

(** The locals of one [triggerRequest] activation: its [chatRequest]
    parameter, reassigned by [updateChatRequest], and the callbacks of
    the latest [callApi]. *)
Record Flight := {
  chatRequest : ChatRequest.t;
  call : option ApiClosure.t
}.

(** A callback of [callApi] cannot run before [callApi] was called;
    such an event has nothing to act on. *)
Definition with_call (fl : Flight) (k : ApiClosure.t -> M unit) : M Flight :=
  match call fl with
  | Some cl => k cl ;; mret fl
  | None => mret fl
  end.

Definition stream_step (h : Hook) (fl : Flight) (e : StreamEvent) : M Flight :=
  match e with
  | InvokeGetStreamedResponse =>
      existingData ← gets streamData;
      previousMessages ← gets messages;
      abortControllerRef ← gets abortController;
      cl ← getStreamedResponse h (chatRequest fl) existingData
             previousMessages abortControllerRef;
      mret {| chatRequest := chatRequest fl; call := Some cl |}
  | InvokeUpdateChatRequest chatRequestParam =>
      mret {| chatRequest := chatRequestParam; call := call fl |}
  | InvokeAppendMessage message =>
      with_call fl (fun cl => appendMessage h cl message)
  | InvokeRestoreMessagesOnFailure =>
      with_call fl (fun cl => restoreMessagesOnFailure h cl)
  | InvokeOnUpdate merged data =>
      with_call fl (fun cl => onUpdate h cl merged data)
  end.

Fixpoint stream_steps (h : Hook) (fl : Flight) (es : list StreamEvent)
    : M Flight :=
  match es with
  | [] => mret fl
  | e :: es' => fl' ← stream_step h fl e; stream_steps h fl' es'
  end.

(** [await p]: the value of a resolved promise, a throw for a rejected one. *)
Definition await (s : Settles) : M unit :=
  match s with
  | Resolves => mret tt
  | Rejects err => throw err
  end.

(** [await processChatStream({...})] run to its end. *)
Definition processChatStream (h : Hook) (run : StreamRun)
    (chatRequest : ChatRequest.t) : M unit :=
  stream_steps h {| chatRequest := chatRequest; call := None |}
               (early run ++ late run) ;;
  await (settles run).

(** ** triggerRequest *)

(** [(err as any).name]: a property read, which throws on null and
    undefined. *)
Definition get_name (err : JsValue) : M (option string) :=
  match err with
  | JsNullish => throw TypeError_name
  | JsPlain name _ => mret name
  | JsError name _ => mret (Some name)
  end.

(** [onError(err)] *)
Definition call_onError (f : JsValue -> option JsValue) (err : JsValue)
    : M unit :=
  emit (CallOnError err) ;;
  match f err with
  | None => mret tt
  | Some thrown => throw thrown
  end.

(** The [catch (err) { ... }] block. *)
Definition triggerRequest_catch (h : Hook) (err : JsValue) : M Returned :=
  name ← get_name err;
  if decide (name = Some "AbortError") then
    modify (set_abortController None) ;;
    mret Null
  else
    match onError h with
    | Some f => if instanceof_Error err then call_onError f err else mret tt
    | None => mret tt
    end ;;
    modify (set_error (Some err)) ;;
    mret Undefined.

Definition triggerRequest (h : Hook) (run : StreamRun)
    (chatRequest : ChatRequest.t) : M Returned :=
  emit (CallTriggerRequest chatRequest) ;;
  try_catch_finally
    (modify (set_error None) ;;
     modify (set_loading true) ;;
     c ← new_AbortController;
     modify (set_abortController (Some c)) ;;
     processChatStream h run chatRequest ;;
     modify (set_abortController None) ;;
     mret Null)
    (triggerRequest_catch h)
    (modify (set_loading false)).

(** The same activation cut at its [await].  A caller that does not
    await the promise (as [handleSubmit] does with [append]) goes on
    after [triggerRequest_begin]; the rest runs once the promise settles. *)
Definition triggerRequest_begin (h : Hook) (run : StreamRun)
    (chatRequest : ChatRequest.t) : M Flight :=
  emit (CallTriggerRequest chatRequest) ;;
  modify (set_error None) ;;
  modify (set_loading true) ;;
  c ← new_AbortController;
  modify (set_abortController (Some c)) ;;
  stream_steps h {| chatRequest := chatRequest; call := None |} (early run).

Definition triggerRequest_resume (h : Hook) (run : StreamRun)
    (fl : Flight) : M Returned :=
  try_catch_finally
    (stream_steps h fl (late run) ;;
     await (settles run) ;;
     modify (set_abortController None) ;;
     mret Null)
    (triggerRequest_catch h)
    (modify (set_loading false)).

(** ** append, reload, stop, setMessages, handleSubmit *)

Section Actions.

(** [nanoid] of shared/utils draws identifiers; [nanoid k] is the k-th
    one it hands out. *)
Variable nanoid : nat -> string.

Definition nanoid_call : M string :=
  k ← gets ids;
  modify (set_ids (S k)) ;;
  mret (nanoid k).

(** [!message.id]: the id is missing or the empty string. *)
Definition no_id (message : Message.t) : bool :=
  match Message.id message with
  | None => true
  | Some s => bool_decide (s = "")
  end.

Definition with_id (message : Message.t) (i : string) : Message.t :=
  Message.mk (Some i) (Message.role message) (Message.content message)
             (Message.name message) (Message.function_call message)
             (Message.createdAt message).

(** [if (!message.id) { message.id = nanoid(); }] *)
Definition assign_id (message : Message.t) : M Message.t :=
  if no_id message then
    i ← nanoid_call;
    mret (with_id message i)
  else mret message.

(** [{ messages, options, ...(functions !== undefined && { functions }),
      ...(function_call !== undefined && { function_call }) }] *)
Definition make_request (msgs : list Message.t) (o : ChatRequestOptions.t)
    : ChatRequest.t :=
  {| ChatRequest.messages := msgs;
     ChatRequest.options := ChatRequestOptions.options o;
     ChatRequest.functions := ChatRequestOptions.functions o;
     ChatRequest.function_call := ChatRequestOptions.function_call o |}.

Definition append (h : Hook) (run : StreamRun)
    (message : Message.t) (o : ChatRequestOptions.t) : M Returned :=
  message' ← assign_id message;
  current ← gets messages;
  triggerRequest h run (make_request (current ++ [message']) o).

(** [append] up to the [await] inside [triggerRequest]. *)
Definition append_begin (h : Hook) (run : StreamRun)
    (message : Message.t) (o : ChatRequestOptions.t) : M Flight :=
  message' ← assign_id message;
  current ← gets messages;
  triggerRequest_begin h run (make_request (current ++ [message']) o).

(** [messagesSnapshot.slice(0, -1)] *)
Definition slice_0_minus1 {A : Type} (l : list A) : list A :=
  take (length l - 1) l.

Definition reload (h : Hook) (run : StreamRun)
    (o : ChatRequestOptions.t) : M Returned :=
  messagesSnapshot ← gets messages;
  if decide (length messagesSnapshot = 0) then mret Null
  else
    let lastMessage := last messagesSnapshot in
    if decide (Message.role <$> lastMessage = Some assistant) then
      triggerRequest h run (make_request (slice_0_minus1 messagesSnapshot) o)
    else
      triggerRequest h run (make_request messagesSnapshot o).

Definition stop : M unit :=
  ac ← gets abortController;
  match ac with
  | Some c =>
      emit (CallAbort c) ;;
      modify (set_abortController None)
  | None => mret tt
  end.

Definition setMessages (h : Hook) (msgs : list Message.t) : M unit :=
  mutate h msgs.

(** [now] is what [new Date()] reads when the handler runs. *)
Definition handleSubmit (h : Hook) (run : StreamRun) (now : Z)
    (o : ChatRequestOptions.t) : M unit :=
  emit CallPreventDefault ;;
  inputValue ← gets input;
  if decide (inputValue = "") then mret tt
  else
    fl ← append_begin h run
           (Message.mk None user inputValue None None (Some now)) o;
    modify (set_input "") ;;
    detached (triggerRequest_resume h run fl).

End Actions.

(** ** Reading the trace *)

(** The values [onError] was called with, in order. *)
Definition onError_calls (t : list Call) : list JsValue :=
  omap (fun c => match c with CallOnError v => Some v | _ => None end) t.

(** The requests [triggerRequest] was entered with, in order. *)
Definition triggered (t : list Call) : list ChatRequest.t :=
  omap (fun c => match c with CallTriggerRequest r => Some r | _ => None end) t.

(** The controllers [abort()] was called on, in order. *)
Definition aborted (t : list Call) : list nat :=
  omap (fun c => match c with CallAbort c => Some c | _ => None end) t.

Definition is_CallApi (c : Call) : Prop :=
  match c with CallApi _ => True | _ => False end.

(** [err.name] where the read succeeds. *)
Definition js_name (err : JsValue) : option string :=
  match err with
  | JsNullish => None
  | JsPlain name _ => name
  | JsError name _ => Some name
  end.

(** What the callbacks of a running request leave alone. *)
Definition stream_frame (w w' : World) : Prop :=
  loading w' = loading w ∧ error w' = error w ∧ input w' = input w ∧
  abortController w' = abortController w ∧
  controllers w' = controllers w ∧ ids w' = ids w ∧
  ∃ calls, trace w' = trace w ++ calls ∧ Forall is_CallApi calls.

(** Where a request stands when its stream has run and its promise is
    about to settle: what [triggerRequest], entered in [w] with
    [chatRequest], has made of the world by then. *)
Definition in_flight (w : World) (chatRequest : ChatRequest.t) (w1 : World)
    : Prop :=
  loading w1 = true ∧ error w1 = None ∧ input w1 = input w ∧
  abortController w1 = Some (controllers w) ∧
  controllers w1 = S (controllers w) ∧ ids w1 = ids w ∧
  ∃ calls, trace w1 = trace w ++ CallTriggerRequest chatRequest :: calls ∧
           Forall is_CallApi calls.

(** The end of [triggerRequest], from the settling of the awaited
    promise on. *)
Definition triggerRequest_settle (h : Hook) (s : Settles) : M Returned :=
  try_catch_finally
    (await s ;;
     modify (set_abortController None) ;;
     mret Null)
    (triggerRequest_catch h)
    (modify (set_loading false)).

(** Whether the [catch] block calls [onError] for this value:
    [if (onError && err instanceof Error)]. *)
Definition onError_applies (h : Hook) (err : JsValue) : bool :=
  match onError h with
  | Some _ => instanceof_Error err
  | None => false
  end.

(** The call [onError(err)], where it is made, returns normally. *)
Definition onError_returns (h : Hook) (err : JsValue) : Prop :=
  ∀ f, onError h = Some f → instanceof_Error err = true → f err = None.

(** The error-path property in its strongest reading: whatever non-abort
    value rejects, the error store ends up holding it and a callback that
    was provided has been called with it exactly once. *)
Definition reports_every_rejection (h : Hook) (run : StreamRun)
    (chatRequest : ChatRequest.t) (w : World) : Prop :=
  ∀ err, settles run = Rejects err → js_name err ≠ Some "AbortError" →
    let w' := snd (triggerRequest h run chatRequest w) in
    error w' = Some err ∧
    (is_Some (onError h) →
     onError_calls (trace w') = onError_calls (trace w) ++ [err]).

(** The world right after the synchronous opening of [triggerRequest]:
    error cleared, loading set, a new controller held. *)
Definition entered (chatRequest : ChatRequest.t) (w : World) : World :=
  set_abortController (Some (controllers w))
    (set_controllers (S (controllers w))
       (set_loading true
          (set_error None
             (set_trace (trace w ++ [CallTriggerRequest chatRequest]) w)))).

(** The requests a running [triggerRequest] can hold: the one it was
    called with and those the collaborator hands to [updateChatRequest]. *)
Definition held_request (first : ChatRequest.t) (es : list StreamEvent)
    (r : ChatRequest.t) : Prop :=
  r = first ∨ InvokeUpdateChatRequest r ∈ es.



(** ** Sample instances *)

Definition sample_nanoid (k : nat) : string := "id-" +:+ pretty k.

Definition sample_hook : Hook :=
  {| api := "/api/chat"; chatId := "chat-0"; sendExtraMessageFields := false;
     onError := Some (fun _ => None);
     credentials := None; headers := None; body := None |}.

Definition sample_user : Message.t :=
  Message.mk (Some "u1") user "hello" None None None.

Definition sample_assistant : Message.t :=
  Message.mk (Some "a1") assistant "hi there" None None None.

Definition sample_draft : Message.t :=
  Message.mk None user "how are you?" None None None.

Definition sample_world (msgs : list Message.t) (text : string) : World :=
  {| store := ∅; messages := msgs; streamData := None; loading := false;
     error := None; input := text; abortController := None;
     controllers := 0; ids := 0; trace := [] |}.

Definition sample_run (s : Settles) : StreamRun :=
  {| early := [InvokeGetStreamedResponse];
     late := [InvokeOnUpdate [sample_assistant] None];
     settles := s |}.

Definition sample_request : ChatRequest.t :=
  {| ChatRequest.messages := [sample_user]; ChatRequest.options := None;
     ChatRequest.functions := None; ChatRequest.function_call := None |}.

(** ** useChat: the closure a hook is made of *)

Module UseChatOptions.
(** The options object, each field possibly left out. *)
Record t := mk {
  api : option string;
  id : option string;
  initialMessages : option (list Message.t);
  initialInput : option string;
  sendExtraMessageFields : option bool;
  onError : option (JsValue -> option JsValue);
  credentials : option string;
  headers : option HeadersInit;
  body : option (gmap string JSONValue)
}.
End UseChatOptions.

(** [id || `chat-${uniqueId++}`]: a missing or empty id is falsy, and the
    counter is only read, and bumped, in that case. *)
Definition resolve_chatId (id : option string) (uniqueId : nat) : string * nat :=
  match id with
  | Some i =>
      if decide (i = "") then ("chat-" +:+ pretty uniqueId, S uniqueId)
      else (i, uniqueId)
  | None => ("chat-" +:+ pretty uniqueId, S uniqueId)
  end.

(** The synchronous body of [useChat]: the closure constants, the
    stores as they are created ([data.set(initialMessages)], loading
    false, no error, no stream data, no controller), and the module
    counter [uniqueId] afterwards.  The module-level [store] is the one
    passed in; nothing has been called or created by the new hook. *)
Definition useChat (o : UseChatOptions.t) (uniqueId : nat)
    (store0 : gmap string (list Message.t)) : Hook * World * nat :=
  let '(chatId0, uniqueId') := resolve_chatId (UseChatOptions.id o) uniqueId in
  ({| api := default "/api/chat" (UseChatOptions.api o);
      chatId := chatId0;
      sendExtraMessageFields :=
        default false (UseChatOptions.sendExtraMessageFields o);
      onError := UseChatOptions.onError o;
      credentials := UseChatOptions.credentials o;
      headers := UseChatOptions.headers o;
      body := UseChatOptions.body o |},
   {| store := store0;
      messages := default [] (UseChatOptions.initialMessages o);
      streamData := None;
      loading := false;
      error := None;
      input := default "" (UseChatOptions.initialInput o);
      abortController := None;
      controllers := 0; ids := 0; trace := [] |},
   uniqueId').

(** ** The hook as its user drives it *)

(** One use of what [useChat] returns: the five functions and a write
    to the input store, which is handed out writable.  A request is
    taken to its end; what its promise settles to is dropped. *)
Inductive Action :=
| DoAppend (run : StreamRun) (message : Message.t) (o : ChatRequestOptions.t)
| DoReload (run : StreamRun) (o : ChatRequestOptions.t)
| DoStop
| DoSetMessages (msgs : list Message.t)
| DoSetInput (text : string)
| DoHandleSubmit (run : StreamRun) (now : Z) (o : ChatRequestOptions.t).

Definition perform (nanoid : nat -> string) (h : Hook) (a : Action)
    (w : World) : World :=
  match a with
  | DoAppend run message o => snd (append nanoid h run message o w)
  | DoReload run o => snd (reload h run o w)
  | DoStop => snd (stop w)
  | DoSetMessages msgs => snd (setMessages h msgs w)
  | DoSetInput text => set_input text w
  | DoHandleSubmit run now o => snd (handleSubmit nanoid h run now o w)
  end.

Definition perform_all (nanoid : nat -> string) (h : Hook)
    (actions : list Action) (w : World) : World :=
  foldl (fun w a => perform nanoid h a w) w actions.

(** The cache entry of the hook holds the message list on display. *)
Definition cache_synced (h : Hook) (w : World) : Prop :=
  store w !! key h = Some (messages w).

(** Controllers are used sanely: the one held and the ones aborted were
    all created, the one held has not been aborted, and none has been
    aborted twice. *)
Definition controllers_ok (w : World) : Prop :=
  (∀ c, abortController w = Some c → c < controllers w ∧ c ∉ aborted (trace w)) ∧
  (∀ c, c ∈ aborted (trace w) → c < controllers w) ∧
  NoDup (aborted (trace w)).

(** The argument [getStreamedResponse] builds for [callApi] from a
    request and the controller it was handed. *)
Definition api_call (h : Hook) (r : ChatRequest.t) (ac : option nat)
    : ApiCall.t :=
  {| ApiCall.api := api h;
     ApiCall.messages := constructedMessagesPayload h r;
     ApiCall.body := constructedBody h r;
     ApiCall.credentials := credentials h;
     ApiCall.headers := constructedHeaders h r;
     ApiCall.abortController := ac |}.

(** The [callApi] calls recorded in a trace, in order. *)
Definition api_calls (t : list Call) : list ApiCall.t :=
  omap (fun c => match c with CallApi a => Some a | _ => None end) t.

(** No further call of [getStreamedResponse] among these events. *)
Definition same_call (es : list StreamEvent) : Prop :=
  InvokeGetStreamedResponse ∉ es.

(** The stream data as a list: [streamData || []]. *)
Definition data_list (w : World) : list JSONValue :=
  default [] (streamData w).

(** What any use of the hook guarantees about the world it leaves:
    loading is not left on, other cache entries are not written, the
    cache entry stays in step with the messages, controllers stay sane
    and stream data only grows. *)
Definition action_effect (h : Hook) (w w' : World) : Prop :=
  (loading w = false → loading w' = false) ∧
  (∀ k, k ≠ key h → store w' !! k = store w !! k) ∧
  (cache_synced h w → cache_synced h w') ∧
  (controllers_ok w → controllers_ok w') ∧
  data_list w `prefix_of` data_list w'.

(** Two worlds that show the same messages, cache and stream data. *)
Definition same_stores (w w' : World) : Prop :=
  store w = store w' ∧ messages w = messages w' ∧
  streamData w = streamData w'.

(** More sample instances. *)
Definition sample_options : UseChatOptions.t :=
  UseChatOptions.mk None None None None None None None None None.

Definition sample_error : JsValue := JsError "TypeError" "Failed to fetch".

Definition sample_abort : JsValue :=
  JsError "AbortError" "The user aborted a request.".

Definition sample_failed_run : StreamRun :=
  {| early := [InvokeGetStreamedResponse];
     late := [InvokeAppendMessage sample_assistant;
              InvokeRestoreMessagesOnFailure];
     settles := Rejects sample_error |}.

Definition sample_actions : list Action :=
  [DoHandleSubmit (sample_run Resolves) 1700000000000 ChatRequestOptions.empty;
   DoStop;
   DoReload sample_failed_run ChatRequestOptions.empty;
   DoSetMessages [sample_user]].

Definition sample_throwing_hook : Hook :=
  {| api := "/api/chat"; chatId := "chat-1"; sendExtraMessageFields := true;
     onError := Some (fun _ => Some (JsPlain None "handler failed"));
     credentials := None; headers := None; body := None |}.

Definition sample_room (i : string) : UseChatOptions.t :=
  UseChatOptions.mk None (Some i) None None None None None None None.

(** ** The callbacks of a running request *)

Lemma stream_frame_refl (w : World) : stream_frame w w.
Proof.
  repeat split; try reflexivity.
  exists []. by rewrite app_nil_r.
Qed.

Lemma stream_frame_trans (w1 w2 w3 : World) :
  stream_frame w1 w2 → stream_frame w2 w3 → stream_frame w1 w3.
Proof.
  intros (Hl & He & Hi & Ha & Hc & Hn & cs & Ht & Hcs)
         (Hl' & He' & Hi' & Ha' & Hc' & Hn' & cs' & Ht' & Hcs').
  repeat split; try congruence.
  exists (cs ++ cs'). split.
  - by rewrite Ht', Ht, (assoc_L (++)).
  - by apply Forall_app.
Qed.

(** A callback never throws and stays within the frame. *)
Lemma stream_step_spec (h : Hook) (fl : Flight) (e : StreamEvent) (w : World) :
  ∃ fl' w', stream_step h fl e w = (Ok fl', w') ∧ stream_frame w w'.
Proof.
  destruct e; unfold stream_step, with_call; try destruct (call fl);
    eexists _, _; (split; [reflexivity |]);
    try apply stream_frame_refl;
    repeat split; simpl;
    (eexists; split; [try reflexivity; by rewrite app_nil_r |]);
    repeat constructor.
Qed.

Lemma stream_steps_spec (h : Hook) (es : list StreamEvent) :
  ∀ (fl : Flight) (w : World),
    ∃ fl' w', stream_steps h fl es w = (Ok fl', w') ∧ stream_frame w w'.
Proof.
  induction es as [| e es IH]; intros fl w.
  - exists fl, w. split; [reflexivity | apply stream_frame_refl].
  - destruct (stream_step_spec h fl e w) as (fl1 & w1 & Hstep & Hframe).
    destruct (IH fl1 w1) as (fl2 & w2 & Hrest & Hframe').
    exists fl2, w2. split.
    + simpl. unfold mbind, M_bind. by rewrite Hstep.
    + by eapply stream_frame_trans.
Qed.

Lemma stream_steps_app (h : Hook) (es1 es2 : list StreamEvent) :
  ∀ (fl : Flight) (w : World),
    stream_steps h fl (es1 ++ es2) w =
    (fl' ← stream_steps h fl es1; stream_steps h fl' es2) w.
Proof.
  induction es1 as [| e es1 IH]; intros fl w; [reflexivity |].
  simpl. unfold mbind, M_bind.
  destruct (stream_step_spec h fl e w) as (fl1 & w1 & -> & _).
  rewrite IH. reflexivity.
Qed.

(** Cutting [triggerRequest] at its [await] loses nothing: what comes
    before the cut cannot throw, so it needs no handler. *)
Lemma triggerRequest_split (h : Hook) (run : StreamRun)
    (chatRequest : ChatRequest.t) (w : World) :
  triggerRequest h run chatRequest w =
  (fl ← triggerRequest_begin h run chatRequest;
   triggerRequest_resume h run fl) w.
Proof.
  unfold triggerRequest, triggerRequest_begin, triggerRequest_resume,
    processChatStream, try_catch_finally, mbind, M_bind, emit, modify, gets,
    new_AbortController, mret, M_ret.
  simpl. rewrite stream_steps_app. unfold mbind, M_bind.
  match goal with
  | |- context [stream_steps h ?fl (early run) ?w0] =>
      destruct (stream_steps_spec h (early run) fl w0) as (fl1 & w1 & -> & _)
  end.
  destruct (stream_steps_spec h (late run) fl1 w1) as (fl2 & w2 & -> & _).
  by destruct (settles run).
Qed.

Lemma triggerRequest_unfold (h : Hook) (run : StreamRun)
    (chatRequest : ChatRequest.t) (w : World) :
  ∃ w1, in_flight w chatRequest w1 ∧
        triggerRequest h run chatRequest w =
        triggerRequest_settle h (settles run) w1.
Proof.
  unfold triggerRequest, triggerRequest_settle, processChatStream,
    try_catch_finally, mbind, M_bind, emit, modify, gets,
    new_AbortController, mret, M_ret.
  simpl.
  match goal with
  | |- context [stream_steps h ?fl ?es ?w0] =>
      destruct (stream_steps_spec h es fl w0)
        as (fl1 & w1 & -> & Hl & He & Hi & Ha & Hc & Hn & cs & Ht & Hcs)
  end.
  simpl in *. exists w1. split.
  - repeat split; try done.
    exists cs. split; [| done]. by rewrite Ht, <- (assoc_L (++)).
  - by destruct (settles run).
Qed.

(** ** How a request ends *)

Lemma onError_calls_app (t1 t2 : list Call) :
  onError_calls (t1 ++ t2) = onError_calls t1 ++ onError_calls t2.
Proof. apply omap_app. Qed.

Lemma onError_calls_CallApi (calls : list Call) :
  Forall is_CallApi calls → onError_calls calls = [].
Proof.
  induction 1 as [| c calls Hc _ IH]; [reflexivity |].
  by destruct c.
Qed.

(** The [onError] calls recorded while the stream of a request ran. *)
Lemma in_flight_onError_calls (w : World) (chatRequest : ChatRequest.t)
    (w1 : World) :
  in_flight w chatRequest w1 → onError_calls (trace w1) = onError_calls (trace w).
Proof.
  intros (_ & _ & _ & _ & _ & _ & cs & -> & Hcs).
  rewrite onError_calls_app. simpl.
  by rewrite (onError_calls_CallApi cs Hcs), app_nil_r.
Qed.

Lemma settle_resolves (h : Hook) (w1 : World) :
  triggerRequest_settle h Resolves w1 =
  (Ok Null, set_loading false (set_abortController None w1)).
Proof. reflexivity. Qed.

Lemma settle_abort (h : Hook) (err : JsValue) (w1 : World) :
  js_name err = Some "AbortError" →
  triggerRequest_settle h (Rejects err) w1 =
  (Ok Null, set_loading false (set_abortController None w1)).
Proof.
  intros Hname.
  destruct err as [| name repr | name message]; simpl in Hname;
    simplify_eq; reflexivity.
Qed.

(** A finalizer that cannot throw runs on every path. *)
Lemma try_catch_finally_modify {A : Type} (body : M A)
    (handler : JsValue → M A) (f : World → World) (w : World) :
  ∃ w1, snd (try_catch_finally body handler (modify f) w) = f w1.
Proof.
  unfold try_catch_finally, modify.
  destruct (body w) as [[a | v] w1]; simpl.
  - by exists w1.
  - destruct (handler v w1) as [r w2]. by exists w2.
Qed.

(** C3: whatever request it is given and however the stream settles
    (resolved, rejected with an abort error, rejected with anything
    else), [triggerRequest] ends with the loading store set to false. *)
Theorem triggerRequest_clears_loading (h : Hook) (run : StreamRun)
    (chatRequest : ChatRequest.t) (w : World) :
  loading (snd (triggerRequest h run chatRequest w)) = false.
Proof.
  destruct (triggerRequest_unfold h run chatRequest w) as (w1 & _ & ->).
  unfold triggerRequest_settle.
  match goal with
  | |- context [try_catch_finally ?b ?hd (modify ?f) ?w0] =>
      destruct (try_catch_finally_modify b hd f w0) as (w2 & ->)
  end.
  reflexivity.
Qed.

(** C4: when the stream rejects with a value whose name is "AbortError",
    [triggerRequest] resolves (to null), the error store is unset, the
    [abortController] variable is null, [onError] has not been called
    and loading is false. *)
Theorem triggerRequest_abort_is_silent (h : Hook) (run : StreamRun)
    (chatRequest : ChatRequest.t) (w : World) (err : JsValue) :
  settles run = Rejects err →
  js_name err = Some "AbortError" →
  ∃ w', triggerRequest h run chatRequest w = (Ok Null, w') ∧
        error w' = None ∧
        abortController w' = None ∧
        onError_calls (trace w') = onError_calls (trace w) ∧
        loading w' = false.
Proof.
  intros Hs Hname.
  destruct (triggerRequest_unfold h run chatRequest w) as (w1 & Hfl & ->).
  rewrite Hs, (settle_abort h err w1 Hname).
  eexists. split; [reflexivity |].
  pose proof (in_flight_onError_calls _ _ _ Hfl) as Hcalls.
  destruct Hfl as (_ & He & _).
  repeat split; simpl; done.
Qed.

(** X24: a successful request returns null, lets the controller go and
    shows no error, whatever error was shown before. *)
Lemma triggerRequest_resolves (h : Hook) (run : StreamRun)
    (chatRequest : ChatRequest.t) (w : World) :
  settles run = Resolves →
  ∃ w', triggerRequest h run chatRequest w = (Ok Null, w') ∧
        error w' = None ∧ abortController w' = None ∧ loading w' = false.
Proof.
  intros Hs.
  destruct (triggerRequest_unfold h run chatRequest w) as (w1 & Hfl & ->).
  rewrite Hs, settle_resolves.
  eexists. split; [reflexivity |].
  destruct Hfl as (_ & He & _). by repeat split.
Qed.

(** X25: a rejection with null or undefined: reading [err.name] in the
    handler throws, so the promise of [triggerRequest] rejects with that
    TypeError and the error store stays unset. *)
Lemma triggerRequest_nullish_rejection (h : Hook) (run : StreamRun)
    (chatRequest : ChatRequest.t) (w : World) :
  settles run = Rejects JsNullish →
  ∃ w', triggerRequest h run chatRequest w = (Throw TypeError_name, w') ∧
        error w' = None ∧ loading w' = false.
Proof.
  intros Hs.
  destruct (triggerRequest_unfold h run chatRequest w) as (w1 & Hfl & ->).
  rewrite Hs.
  eexists. split; [reflexivity |].
  destruct Hfl as (_ & He & _). by repeat split.
Qed.

(** X26: a callback that throws takes the handler with it: the thrown
    value rejects the promise of [triggerRequest] before the error
    store is written. *)
Lemma triggerRequest_onError_throws (h : Hook) (run : StreamRun)
    (chatRequest : ChatRequest.t) (w : World)
    (f : JsValue → option JsValue) (name message : string) (thrown : JsValue) :
  settles run = Rejects (JsError name message) →
  name ≠ "AbortError" →
  onError h = Some f →
  f (JsError name message) = Some thrown →
  ∃ w', triggerRequest h run chatRequest w = (Throw thrown, w') ∧
        error w' = None ∧ loading w' = false.
Proof.
  intros Hs Hname Hf Hthrown.
  destruct (triggerRequest_unfold h run chatRequest w) as (w1 & Hfl & ->).
  rewrite Hs.
  unfold triggerRequest_settle, try_catch_finally, triggerRequest_catch,
    call_onError, emit, modify, mbind, M_bind.
  simpl. rewrite decide_False by congruence.
  rewrite Hf. simpl. rewrite Hthrown. simpl.
  eexists. split; [reflexivity |].
  destruct Hfl as (_ & He & _). by repeat split.
Qed.

(** C2, as amended: when the stream rejects with a value other than null
    or undefined whose name is not "AbortError", [onError] is called
    exactly once with that value if it was provided and the value is an
    instance of Error, and is not called otherwise; and where that call
    returns normally (or is not made) the error store ends up holding
    the rejected value. *)
Theorem triggerRequest_reports_rejection (h : Hook) (run : StreamRun)
    (chatRequest : ChatRequest.t) (w : World) (err : JsValue) :
  settles run = Rejects err →
  err ≠ JsNullish →
  js_name err ≠ Some "AbortError" →
  let w' := snd (triggerRequest h run chatRequest w) in
  onError_calls (trace w') =
    onError_calls (trace w) ++ (if onError_applies h err then [err] else []) ∧
  (onError_returns h err → error w' = Some err).
Proof.
  intros Hs Hnull Hname w'. subst w'.
  destruct (triggerRequest_unfold h run chatRequest w) as (w1 & Hfl & ->).
  pose proof (in_flight_onError_calls _ _ _ Hfl) as Hcalls.
  rewrite Hs.
  unfold triggerRequest_settle, try_catch_finally, triggerRequest_catch,
    onError_applies, onError_returns, mbind, M_bind.
  destruct err as [| name repr | name message]; [done | |];
    simpl in Hname |- *; (case_decide; [done |]);
    destruct (onError h) as [f |]; simpl;
    rewrite ?app_nil_r; try done.
  unfold call_onError, emit, modify, mbind, M_bind. simpl.
  destruct (f (JsError name message)) as [thrown |] eqn:Hf; simpl;
    rewrite onError_calls_app, Hcalls; (split; [done |]).
  - intros Hret. specialize (Hret f eq_refl eq_refl). congruence.
  - done.
Qed.

(** C10: when the stream rejects with anything that is not an abort
    error, [triggerRequest] leaves the [abortController] variable on the
    controller it created for that request, and a following [stop()]
    calls [abort()] on that controller before clearing the variable. *)
Theorem triggerRequest_failure_keeps_controller (h : Hook) (run : StreamRun)
    (chatRequest : ChatRequest.t) (w : World) (err : JsValue) :
  settles run = Rejects err →
  js_name err ≠ Some "AbortError" →
  let w' := snd (triggerRequest h run chatRequest w) in
  abortController w' = Some (controllers w) ∧
  controllers w' = S (controllers w) ∧
  stop w' = (Ok tt, set_abortController None
                      (set_trace (trace w' ++ [CallAbort (controllers w)]) w')).
Proof.
  intros Hs Hname w'.
  assert (abortController w' = Some (controllers w) ∧
          controllers w' = S (controllers w)) as [Hac Hcs].
  { subst w'.
    destruct (triggerRequest_unfold h run chatRequest w) as (w1 & Hfl & ->).
    destruct Hfl as (_ & _ & _ & Hac & Hcs & _).
    rewrite Hs.
    unfold triggerRequest_settle, try_catch_finally, triggerRequest_catch,
      mbind, M_bind.
    destruct err as [| name repr | name message];
      simpl in Hname |- *; [done | |];
      (case_decide; [done |]);
      destruct (onError h) as [f |]; simpl; try done.
    unfold call_onError, emit, modify, mbind, M_bind. simpl.
    by destruct (f (JsError name message)). }
  repeat split; [done.. |].
  unfold stop, gets, emit, modify, mbind, M_bind. by rewrite Hac.
Qed.

(** ** The requests an action triggers *)

Lemma triggered_app (t1 t2 : list Call) :
  triggered (t1 ++ t2) = triggered t1 ++ triggered t2.
Proof. apply omap_app. Qed.

Lemma triggered_CallApi (calls : list Call) :
  Forall is_CallApi calls → triggered calls = [].
Proof.
  induction 1 as [| c calls Hc _ IH]; [reflexivity |].
  by destruct c.
Qed.

Lemma in_flight_triggered (w : World) (chatRequest : ChatRequest.t)
    (w1 : World) :
  in_flight w chatRequest w1 →
  triggered (trace w1) = triggered (trace w) ++ [chatRequest].
Proof.
  intros (_ & _ & _ & _ & _ & _ & cs & -> & Hcs).
  rewrite triggered_app. simpl.
  by rewrite (triggered_CallApi cs Hcs).
Qed.

(** The settling of a request triggers no further request. *)
Lemma settle_triggered (h : Hook) (s : Settles) (w1 : World) :
  triggered (trace (snd (triggerRequest_settle h s w1))) = triggered (trace w1).
Proof.
  unfold triggerRequest_settle, try_catch_finally, triggerRequest_catch,
    mbind, M_bind.
  destruct s as [| err]; [reflexivity |].
  destruct err as [| name repr | name message]; simpl; [done | |];
    (case_decide; [done |]);
    destruct (onError h) as [f |]; simpl; try done.
  unfold call_onError, emit, modify, mbind, M_bind. simpl.
  destruct (f (JsError name message)); simpl;
    by rewrite triggered_app, app_nil_r.
Qed.

(** One call of [triggerRequest] is one request. *)
Lemma triggerRequest_triggered (h : Hook) (run : StreamRun)
    (chatRequest : ChatRequest.t) (w : World) :
  triggered (trace (snd (triggerRequest h run chatRequest w))) =
  triggered (trace w) ++ [chatRequest].
Proof.
  destruct (triggerRequest_unfold h run chatRequest w) as (w1 & Hfl & ->).
  by rewrite settle_triggered, (in_flight_triggered _ _ _ Hfl).
Qed.

Lemma slice_0_minus1_snoc {A : Type} (l : list A) (x : A) :
  slice_0_minus1 (l ++ [x]) = l.
Proof.
  unfold slice_0_minus1. rewrite length_app. simpl.
  replace (length l + 1 - 1) with (length l) by lia.
  by rewrite take_app_length.
Qed.

(** C1: on a non-empty message list whose last message is [m], [reload]
    is [triggerRequest] on a request whose messages are the list without
    [m] when [m] comes from the assistant and the whole list otherwise
    (its other fields are the options passed), and that request is the
    one request it triggers. *)
Theorem reload_request (h : Hook) (run : StreamRun) (o : ChatRequestOptions.t)
    (w : World) (ms : list Message.t) (m : Message.t) :
  messages w = ms ++ [m] →
  let sent := if decide (Message.role m = assistant) then ms else ms ++ [m] in
  let request :=
    {| ChatRequest.messages := sent;
       ChatRequest.options := ChatRequestOptions.options o;
       ChatRequest.functions := ChatRequestOptions.functions o;
       ChatRequest.function_call := ChatRequestOptions.function_call o |} in
  reload h run o w = triggerRequest h run request w ∧
  triggered (trace (snd (reload h run o w))) =
    triggered (trace w) ++ [request] ∧
  map ChatRequest.messages (triggered (trace (snd (reload h run o w)))) =
    map ChatRequest.messages (triggered (trace w)) ++ [sent].
Proof.
  intros Hms sent request.
  assert (reload h run o w = triggerRequest h run request w) as ->.
  { unfold reload, gets, mbind, M_bind. rewrite Hms.
    case_decide as Hlen.
    - rewrite length_app in Hlen. simpl in Hlen. lia.
    - rewrite last_snoc. simpl. subst request sent.
      destruct (decide (Message.role m = assistant)) as [Hr | Hr].
      + rewrite decide_True by congruence.
        by rewrite slice_0_minus1_snoc.
      + by rewrite decide_False by congruence. }
  rewrite triggerRequest_triggered.
  split; [done |]. split; [done |].
  by rewrite map_app.
Qed.

(** C5: on an empty message list [reload] returns null and changes
    nothing: no request is triggered and every store, the cache and the
    trace of calls are as before. *)
Theorem reload_empty (h : Hook) (run : StreamRun) (o : ChatRequestOptions.t)
    (w : World) :
  messages w = [] →
  reload h run o w = (Ok Null, w).
Proof.
  intros Hms. unfold reload, gets, mbind, M_bind. by rewrite Hms.
Qed.

(** C8: [setMessages m] puts [m] in the messages store and under the
    hook's key in the cache, returns normally, and does nothing else:
    no call leaves the hook and the error, loading, stream data and
    input stores and the [abortController] variable keep their values. *)
Theorem setMessages_overwrites (h : Hook) (m : list Message.t) (w : World) :
  ∃ w', setMessages h m w = (Ok tt, w') ∧
        messages w' = m ∧
        store w' !! key h = Some m ∧
        (∀ k, k ≠ key h → store w' !! k = store w !! k) ∧
        trace w' = trace w ∧
        error w' = error w ∧ loading w' = loading w ∧
        streamData w' = streamData w ∧ input w' = input w ∧
        abortController w' = abortController w.
Proof.
  eexists. split; [reflexivity |]. simpl.
  repeat split; try done.
  - apply lookup_insert_eq.
  - intros k Hk. apply lookup_insert_ne. congruence.
Qed.

(** C9: with no controller held, [stop] returns normally and the world
    is exactly what it was; and in any world a second [stop] right after
    a first changes nothing more. *)
Theorem stop_without_request (w : World) :
  (abortController w = None → stop w = (Ok tt, w)) ∧
  stop (snd (stop w)) = (Ok tt, snd (stop w)).
Proof.
  unfold stop, gets, emit, modify, mbind, M_bind. split.
  - by intros ->.
  - destruct (abortController w) as [c |] eqn:Hac; simpl.
    + reflexivity.
    + by rewrite Hac.
Qed.

(** ** What a request writes to the message store *)

Section Written.

Variables (h : Hook) (before : list Message.t) (first : ChatRequest.t)
  (all : list StreamEvent).




End Written.

Lemma triggerRequest_stream (h : Hook) (run : StreamRun)
    (chatRequest : ChatRequest.t) (w : World) :
  ∃ fl1 w1,
    stream_steps h {| chatRequest := chatRequest; call := None |}
      (early run ++ late run) (entered chatRequest w) = (Ok fl1, w1) ∧
    triggerRequest h run chatRequest w =
    triggerRequest_settle h (settles run) w1.
Proof.
  unfold triggerRequest, triggerRequest_settle, processChatStream,
    try_catch_finally, mbind, M_bind, emit, modify, gets,
    new_AbortController, mret, M_ret.
  simpl. fold (entered chatRequest w).
  destruct (stream_steps_spec h (early run ++ late run)
              {| chatRequest := chatRequest; call := None |}
              (entered chatRequest w)) as (fl1 & w1 & Hsteps & _).
  exists fl1, w1. split; [done |].
  rewrite Hsteps. by destruct (settles run).
Qed.



(** ** append *)

Section AppendFacts.

Variable nanoid : nat → string.

(** A message that comes without an id gets the next identifier. *)
Lemma assign_id_fresh (message : Message.t) (w : World) :
  no_id message = true →
  assign_id nanoid message w =
  (Ok (with_id message (nanoid (ids w))), set_ids (S (ids w)) w).
Proof. intros Hno. unfold assign_id. by rewrite Hno. Qed.

(** A message that has an id keeps it, and no identifier is drawn. *)
Lemma assign_id_keeps (message : Message.t) (w : World) :
  no_id message = false →
  assign_id nanoid message w = (Ok message, w).
Proof. intros Hno. unfold assign_id. by rewrite Hno. Qed.

Lemma append_fresh (h : Hook) (run : StreamRun) (message : Message.t)
    (o : ChatRequestOptions.t) (w : World) :
  no_id message = true →
  append nanoid h run message o w =
  triggerRequest h run
    (make_request (messages w ++ [with_id message (nanoid (ids w))]) o)
    (set_ids (S (ids w)) w).
Proof.
  intros Hno. unfold append, mbind, M_bind.
  by rewrite assign_id_fresh.
Qed.


End AppendFacts.

(** ** handleSubmit *)

(** The request never reads or writes the input store, so clearing the
    input before the rest of the request runs or after it is the same. *)
Lemma stream_step_set_input (h : Hook) (fl : Flight) (e : StreamEvent)
    (s : string) (w : World) :
  stream_step h fl e (set_input s w) =
  (let '(r, w') := stream_step h fl e w in (r, set_input s w')).
Proof.
  destruct e; unfold stream_step, with_call; try destruct (call fl);
    reflexivity.
Qed.

Lemma stream_steps_set_input (h : Hook) (es : list StreamEvent) (s : string) :
  ∀ (fl : Flight) (w : World),
    stream_steps h fl es (set_input s w) =
    (let '(r, w') := stream_steps h fl es w in (r, set_input s w')).
Proof.
  induction es as [| e es IH]; intros fl w; [reflexivity |].
  simpl. unfold mbind, M_bind. rewrite stream_step_set_input.
  destruct (stream_step_spec h fl e w) as (fl1 & w1 & -> & _).
  apply IH.
Qed.

Lemma triggerRequest_resume_set_input (h : Hook) (run : StreamRun)
    (fl : Flight) (s : string) (w : World) :
  triggerRequest_resume h run fl (set_input s w) =
  (let '(r, w') := triggerRequest_resume h run fl w in (r, set_input s w')).
Proof.
  unfold triggerRequest_resume, try_catch_finally, mbind, M_bind.
  rewrite stream_steps_set_input.
  destruct (stream_steps_spec h (late run) fl w) as (fl1 & w1 & -> & _).
  destruct (settles run) as [| err]; [reflexivity |].
  unfold triggerRequest_catch, mbind, M_bind.
  destruct err as [| name repr | name message]; simpl; [done | |];
    (case_decide; [done |]);
    destruct (onError h) as [f |]; simpl; try done.
  unfold call_onError, emit, modify, mbind, M_bind. simpl.
  by destruct (f (JsError name message)).
Qed.

(** The synchronous opening of a request cannot throw. *)
Lemma triggerRequest_begin_ok (h : Hook) (run : StreamRun)
    (chatRequest : ChatRequest.t) (w : World) :
  ∃ fl1 w1, triggerRequest_begin h run chatRequest w = (Ok fl1, w1).
Proof.
  unfold triggerRequest_begin, emit, modify, gets, new_AbortController,
    mbind, M_bind, mret, M_ret.
  simpl.
  match goal with
  | |- context [stream_steps h ?fl ?es ?w0] =>
      destruct (stream_steps_spec h es fl w0) as (fl1 & w1 & -> & _)
  end.
  by exists fl1, w1.
Qed.

Section HandleSubmitFacts.

Variable nanoid : nat → string.

(** With text in the input, [handleSubmit] leaves the world [append]
    leaves on the message it builds, with the input cleared. *)
Lemma handleSubmit_as_append (h : Hook) (run : StreamRun) (now : Z)
    (o : ChatRequestOptions.t) (w : World) :
  input w ≠ "" →
  handleSubmit nanoid h run now o w =
  (Ok tt,
   set_input ""
     (snd (append nanoid h run
             (Message.mk None user (input w) None None (Some now)) o
             (set_trace (trace w ++ [CallPreventDefault]) w)))).
Proof.
  intros Hin.
  unfold handleSubmit, append, append_begin, detached, emit, modify, gets,
    mbind, M_bind.
  rewrite decide_False by done.
  rewrite !assign_id_fresh by done. simpl.
  rewrite triggerRequest_split. unfold mbind, M_bind.
  match goal with
  | |- context [triggerRequest_begin h run ?r ?w0] =>
      destruct (triggerRequest_begin_ok h run r w0) as (fl1 & w1 & ->)
  end.
  rewrite triggerRequest_resume_set_input.
  by destruct (triggerRequest_resume h run fl1 w1).
Qed.

(** C7: with an empty input [handleSubmit] only calls
    [e.preventDefault()]: no request is triggered and the input and
    every other store are as before.  With text in the input it triggers
    exactly one request, whose messages are the current messages
    followed by one new message carrying that text, the role user and
    the time of the call (and a generated id), and leaves the input
    empty. *)
Theorem handleSubmit_spec (h : Hook) (run : StreamRun) (now : Z)
    (o : ChatRequestOptions.t) (w : World) :
  (input w = "" →
   handleSubmit nanoid h run now o w =
   (Ok tt, set_trace (trace w ++ [CallPreventDefault]) w)) ∧
  (input w ≠ "" →
   let message :=
     {| Message.id := Some (nanoid (ids w));
        Message.role := user;
        Message.content := input w;
        Message.name := None;
        Message.function_call := None;
        Message.createdAt := Some now |} in
   let request :=
     {| ChatRequest.messages := messages w ++ [message];
        ChatRequest.options := ChatRequestOptions.options o;
        ChatRequest.functions := ChatRequestOptions.functions o;
        ChatRequest.function_call := ChatRequestOptions.function_call o |} in
   let w' := snd (handleSubmit nanoid h run now o w) in
   fst (handleSubmit nanoid h run now o w) = Ok tt ∧
   triggered (trace w') = triggered (trace w) ++ [request] ∧
   map ChatRequest.messages (triggered (trace w')) =
     map ChatRequest.messages (triggered (trace w)) ++
     [messages w ++ [message]] ∧
   input w' = "").
Proof.
  split.
  - intros Hin.
    unfold handleSubmit, emit, modify, gets, mbind, M_bind. simpl.
    by rewrite decide_True.
  - intros Hin message request w'.
    assert (triggered (trace w') = triggered (trace w) ++ [request]) as Htr.
    { subst w'. rewrite handleSubmit_as_append by done. simpl.
      rewrite append_fresh by done.
      rewrite triggerRequest_triggered. simpl.
      by rewrite triggered_app, app_nil_r. }
    subst w'. rewrite handleSubmit_as_append in * by done. simpl in *.
    split; [done |]. split; [done |]. split; [| done].
    by rewrite Htr, map_app.
Qed.

End HandleSubmitFacts.

(** ** The theorems at sample inputs *)

Lemma reload_request_witness :
  map ChatRequest.messages
    (triggered
       (trace (snd (reload sample_hook (sample_run Resolves)
                      ChatRequestOptions.empty
                      (sample_world [sample_user; sample_assistant] ""))))) =
  [[sample_user]].
Proof.
  exact (proj2 (proj2 (reload_request sample_hook (sample_run Resolves)
                         ChatRequestOptions.empty
                         (sample_world [sample_user; sample_assistant] "")
                         [sample_user] sample_assistant eq_refl))).
Defined.

(** A thrown string is not an Error: the callback that was provided is
    not called, although the store does receive the value. *)
Lemma reports_every_rejection_counterexample :
  is_Some (onError sample_hook) ∧
  js_name (JsPlain None "boom") ≠ Some "AbortError" ∧
  onError_calls
    (trace (snd (triggerRequest sample_hook
                   (sample_run (Rejects (JsPlain None "boom")))
                   sample_request (sample_world [] "")))) = [] ∧
  ¬ reports_every_rejection sample_hook
      (sample_run (Rejects (JsPlain None "boom")))
      sample_request (sample_world [] "").
Proof.
  split; [by eexists |]. split; [done |]. split; [reflexivity |].
  intros Hclaim.
  destruct (Hclaim (JsPlain None "boom") eq_refl) as [_ Hcalls]; [done |].
  specialize (Hcalls (ex_intro _ _ eq_refl)).
  vm_compute in Hcalls. discriminate.
Qed.

Lemma triggerRequest_reports_rejection_witness :
  onError_calls
    (trace (snd (triggerRequest sample_hook
                   (sample_run (Rejects (JsError "TypeError" "Failed to fetch")))
                   sample_request (sample_world [] "")))) =
    [JsError "TypeError" "Failed to fetch"] ∧
  error (snd (triggerRequest sample_hook
                (sample_run (Rejects (JsError "TypeError" "Failed to fetch")))
                sample_request (sample_world [] ""))) =
    Some (JsError "TypeError" "Failed to fetch").
Proof.
  destruct (triggerRequest_reports_rejection sample_hook
              (sample_run (Rejects (JsError "TypeError" "Failed to fetch")))
              sample_request (sample_world [] "")
              (JsError "TypeError" "Failed to fetch")
              eq_refl ltac:(discriminate) ltac:(discriminate))
    as [Hcalls Herror].
  split; [exact Hcalls |].
  apply Herror. intros f Hf _. injection Hf as <-. reflexivity.
Defined.

Lemma triggerRequest_abort_is_silent_witness :
  ∃ w', triggerRequest sample_hook
          (sample_run (Rejects (JsError "AbortError" "The user aborted a request.")))
          sample_request (sample_world [] "") = (Ok Null, w') ∧
        error w' = None ∧ abortController w' = None ∧
        onError_calls (trace w') = [] ∧ loading w' = false.
Proof.
  exact (triggerRequest_abort_is_silent sample_hook
           (sample_run (Rejects (JsError "AbortError" "The user aborted a request.")))
           sample_request (sample_world [] "")
           (JsError "AbortError" "The user aborted a request.")
           eq_refl eq_refl).
Defined.

Lemma reload_empty_witness :
  reload sample_hook (sample_run Resolves) ChatRequestOptions.empty
    (sample_world [] "") = (Ok Null, sample_world [] "").
Proof.
  exact (reload_empty sample_hook (sample_run Resolves)
           ChatRequestOptions.empty (sample_world [] "") eq_refl).
Defined.


Lemma handleSubmit_spec_witness :
  handleSubmit sample_nanoid sample_hook (sample_run Resolves) 1700000000000
    ChatRequestOptions.empty (sample_world [sample_user] "") =
  (Ok tt, set_trace [CallPreventDefault] (sample_world [sample_user] "")) ∧
  input (snd (handleSubmit sample_nanoid sample_hook (sample_run Resolves)
                1700000000000 ChatRequestOptions.empty
                (sample_world [sample_user] "thanks"))) = "".
Proof.
  split.
  - exact (proj1 (handleSubmit_spec sample_nanoid sample_hook
                    (sample_run Resolves) 1700000000000
                    ChatRequestOptions.empty (sample_world [sample_user] ""))
             eq_refl).
  - exact (proj2 (proj2 (proj2 (proj2 (handleSubmit_spec sample_nanoid
                    sample_hook (sample_run Resolves) 1700000000000
                    ChatRequestOptions.empty
                    (sample_world [sample_user] "thanks"))
             ltac:(discriminate))))).
Defined.

Lemma stop_without_request_witness :
  stop (sample_world [sample_user] "") = (Ok tt, sample_world [sample_user] "").
Proof.
  exact (proj1 (stop_without_request (sample_world [sample_user] "")) eq_refl).
Defined.

Lemma triggerRequest_failure_keeps_controller_witness :
  abortController
    (snd (triggerRequest sample_hook
            (sample_run (Rejects (JsError "TypeError" "Failed to fetch")))
            sample_request (sample_world [] ""))) = Some 0 ∧
  aborted
    (trace (snd (stop (snd (triggerRequest sample_hook
                              (sample_run (Rejects (JsError "TypeError" "Failed to fetch")))
                              sample_request (sample_world [] "")))))) = [0].
Proof.
  destruct (triggerRequest_failure_keeps_controller sample_hook
              (sample_run (Rejects (JsError "TypeError" "Failed to fetch")))
              sample_request (sample_world [] "")
              (JsError "TypeError" "Failed to fetch")
              eq_refl ltac:(discriminate))
    as (Hheld & _ & Hstop).
  split; [exact Hheld |].
  rewrite Hstop. reflexivity.
Defined.

(** ** Invariants of a running stream *)

Lemma stream_steps_invariant (h : Hook) (all : list StreamEvent)
    (P : Flight → World → Prop) :
  (∀ fl e w fl' w',
     e ∈ all → P fl w → stream_step h fl e w = (Ok fl', w') → P fl' w') →
  ∀ es fl w fl' w',
    es ⊆ all → P fl w → stream_steps h fl es w = (Ok fl', w') → P fl' w'.
Proof.
  intros Hstep es.
  induction es as [| e es IH]; intros fl w fl' w' Hsub HP Hrun.
  - simpl in Hrun. by injection Hrun as <- <-.
  - simpl in Hrun. unfold mbind, M_bind in Hrun.
    destruct (stream_step_spec h fl e w) as (fl1 & w1 & Hs & _).
    rewrite Hs in Hrun.
    apply (IH fl1 w1 fl' w'); [set_solver | | done].
    apply (Hstep fl e w fl1 w1); [set_solver | done | done].
Qed.

(** What one callback does, event by event. *)
Lemma stream_step_get (h : Hook) (fl : Flight) (w : World) :
  stream_step h fl InvokeGetStreamedResponse w =
  (Ok {| chatRequest := chatRequest fl;
         call := Some (ApiClosure.mk (chatRequest fl) (streamData w)
                                     (messages w)) |},
   set_trace (trace w ++ [CallApi (api_call h (chatRequest fl)
                                             (abortController w))])
     (set_messages (ChatRequest.messages (chatRequest fl))
        (set_store (<[key h := ChatRequest.messages (chatRequest fl)]>
                      (store w)) w))).
Proof. reflexivity. Qed.

Lemma stream_step_update (h : Hook) (fl : Flight) (r : ChatRequest.t)
    (w : World) :
  stream_step h fl (InvokeUpdateChatRequest r) w =
  (Ok {| chatRequest := r; call := call fl |}, w).
Proof. reflexivity. Qed.

Lemma stream_step_no_call (h : Hook) (fl : Flight) (e : StreamEvent)
    (w : World) :
  call fl = None →
  e ≠ InvokeGetStreamedResponse →
  (∀ r, e ≠ InvokeUpdateChatRequest r) →
  stream_step h fl e w = (Ok fl, w).
Proof.
  intros Hcall Hget Hupd.
  destruct e; unfold stream_step, with_call; rewrite ?Hcall;
    try reflexivity; [done | by destruct (Hupd chatRequestParam)].
Qed.

Lemma stream_step_append (h : Hook) (fl : Flight) (cl : ApiClosure.t)
    (m : Message.t) (w : World) :
  call fl = Some cl →
  stream_step h fl (InvokeAppendMessage m) w =
  (Ok fl,
   let l := ChatRequest.messages (ApiClosure.chatRequest cl) ++ [m] in
   set_messages l (set_store (<[key h := l]> (store w)) w)).
Proof. intros Hcall. unfold stream_step, with_call. by rewrite Hcall. Qed.

Lemma stream_step_restore (h : Hook) (fl : Flight) (cl : ApiClosure.t)
    (w : World) :
  call fl = Some cl →
  stream_step h fl InvokeRestoreMessagesOnFailure w =
  (Ok fl,
   let l := ApiClosure.previousMessages cl in
   set_messages l (set_store (<[key h := l]> (store w)) w)).
Proof. intros Hcall. unfold stream_step, with_call. by rewrite Hcall. Qed.

Lemma stream_step_onUpdate (h : Hook) (fl : Flight) (cl : ApiClosure.t)
    (merged : list Message.t) (data : option (list JSONValue)) (w : World) :
  call fl = Some cl →
  stream_step h fl (InvokeOnUpdate merged data) w =
  (Ok fl,
   let l := ChatRequest.messages (ApiClosure.chatRequest cl) ++ merged in
   set_streamData
     (Some (default [] (ApiClosure.existingData cl) ++ default [] data))
     (set_messages l (set_store (<[key h := l]> (store w)) w))).
Proof. intros Hcall. unfold stream_step, with_call. by rewrite Hcall. Qed.

(** Every step is one of these five shapes. *)
Lemma stream_step_cases (h : Hook) (fl : Flight) (e : StreamEvent) (w : World)
    (fl' : Flight) (w' : World) :
  stream_step h fl e w = (Ok fl', w') →
  (fl' = fl ∧ w' = w) ∨
  (∃ r, e = InvokeUpdateChatRequest r ∧
        fl' = {| chatRequest := r; call := call fl |} ∧ w' = w) ∨
  (e = InvokeGetStreamedResponse ∧
   fl' = {| chatRequest := chatRequest fl;
            call := Some (ApiClosure.mk (chatRequest fl) (streamData w)
                                        (messages w)) |} ∧
   w' = set_trace (trace w ++ [CallApi (api_call h (chatRequest fl)
                                                  (abortController w))])
          (set_messages (ChatRequest.messages (chatRequest fl))
             (set_store (<[key h := ChatRequest.messages (chatRequest fl)]>
                           (store w)) w))) ∨
  (∃ cl l, call fl = Some cl ∧ fl' = fl ∧
     (l = ApiClosure.previousMessages cl ∨
      ∃ extra, l = ChatRequest.messages (ApiClosure.chatRequest cl) ++ extra) ∧
     (w' = set_messages l (set_store (<[key h := l]> (store w)) w) ∨
      ∃ data,
        w' = set_streamData
               (Some (default [] (ApiClosure.existingData cl) ++ data))
               (set_messages l (set_store (<[key h := l]> (store w)) w)))).
Proof.
  intros Hstep.
  destruct e as [| r | m | | merged data].
  - rewrite stream_step_get in Hstep. injection Hstep as <- <-.
    right. right. left. done.
  - rewrite stream_step_update in Hstep. injection Hstep as <- <-.
    right. left. by exists r.
  - destruct (call fl) as [cl |] eqn:Hcall.
    + rewrite (stream_step_append h fl cl) in Hstep by done.
      injection Hstep as <- <-.
      right. right. right. eexists cl, _. split; [done |]. split; [done |].
      split; [right; by eexists | by left].
    + rewrite stream_step_no_call in Hstep by done.
      injection Hstep as <- <-. by left.
  - destruct (call fl) as [cl |] eqn:Hcall.
    + rewrite (stream_step_restore h fl cl) in Hstep by done.
      injection Hstep as <- <-.
      right. right. right. eexists cl, _. split; [done |]. split; [done |].
      split; [by left | by left].
    + rewrite stream_step_no_call in Hstep by done.
      injection Hstep as <- <-. by left.
  - destruct (call fl) as [cl |] eqn:Hcall.
    + rewrite (stream_step_onUpdate h fl cl) in Hstep by done.
      injection Hstep as <- <-.
      right. right. right. eexists cl, _. split; [done |]. split; [done |].
      split; [right; by eexists | right; by eexists].
    + rewrite stream_step_no_call in Hstep by done.
      injection Hstep as <- <-. by left.
Qed.

(** A stream writes only the hook's own cache entry, and whenever it
    writes the messages it writes the entry with them. *)
Lemma stream_steps_cache (h : Hook) (es : list StreamEvent) (fl : Flight)
    (w : World) (fl' : Flight) (w' : World) :
  stream_steps h fl es w = (Ok fl', w') →
  (∀ k, k ≠ key h → store w' !! k = store w !! k) ∧
  (cache_synced h w → cache_synced h w').
Proof.
  apply (stream_steps_invariant h es
           (λ _ w1, (∀ k, k ≠ key h → store w1 !! k = store w !! k) ∧
                    (cache_synced h w → cache_synced h w1)));
    [| done | done].
  clear. intros fl e w1 fl1 w2 _ [Hother Hsync] Hstep.
  destruct (stream_step_cases h fl e w1 fl1 w2 Hstep)
    as [[-> ->] | [(r & _ & _ & ->) | [(_ & _ & ->) |
        (cl & l & _ & _ & _ & [-> | [data ->]])]]];
    try done;
    (split; [intros k Hk; simpl; rewrite lookup_insert_ne by congruence;
             by apply Hother
            | intros _; unfold cache_synced; simpl; apply lookup_insert_eq]).
Qed.

(** The stream data a stream leaves extends the data it found. *)
Lemma stream_steps_data (h : Hook) (es : list StreamEvent) (fl : Flight)
    (w : World) (fl' : Flight) (w' : World) :
  (∀ cl, call fl = Some cl →
         data_list w `prefix_of` default [] (ApiClosure.existingData cl)) →
  stream_steps h fl es w = (Ok fl', w') →
  data_list w `prefix_of` data_list w'.
Proof.
  intros Hcall Hrun.
  apply (stream_steps_invariant h es
           (λ fl1 w1,
              data_list w `prefix_of` data_list w1 ∧
              ∀ cl, call fl1 = Some cl →
                data_list w `prefix_of` default [] (ApiClosure.existingData cl))
           ) in Hrun; [by destruct Hrun | | done | done].
  clear. intros fl e w1 fl1 w2 _ [Hdata Hcall] Hstep.
  destruct (stream_step_cases h fl e w1 fl1 w2 Hstep)
    as [[-> ->] | [(r & _ & -> & ->) | [(_ & -> & ->) |
        (cl & l & Hcl & -> & _ & [-> | [data ->]])]]];
    try done.
  - split; [done |]. simpl. by intros cl [= <-].
  - split; [| done]. unfold data_list. simpl.
    apply prefix_app_r. by apply Hcall.
Qed.

(** The [callApi] calls of a stream: one per [getStreamedResponse],
    each built from a request the activation held and handed the
    controller the hook held throughout. *)
Lemma stream_steps_api_calls (h : Hook) (first : ChatRequest.t)
    (es : list StreamEvent) (w : World) (fl' : Flight) (w' : World) :
  stream_steps h {| chatRequest := first; call := None |} es w = (Ok fl', w') →
  ∃ rs, api_calls (trace w') =
          api_calls (trace w) ++
          map (λ r, api_call h r (abortController w)) rs ∧
        Forall (held_request first es) rs.
Proof.
  intros Hrun.
  apply (stream_steps_invariant h es
           (λ fl1 w1,
              held_request first es (chatRequest fl1) ∧
              abortController w1 = abortController w ∧
              ∃ rs, api_calls (trace w1) =
                      api_calls (trace w) ++
                      map (λ r, api_call h r (abortController w)) rs ∧
                    Forall (held_request first es) rs)) in Hrun;
    [by destruct Hrun as (_ & _ & ?) | | done |].
  - clear. intros fl e w1 fl1 w2 He (Hheld & Hac & rs & Hcalls & Hrs) Hstep.
    destruct (stream_step_cases h fl e w1 fl1 w2 Hstep)
      as [[-> ->] | [(r & -> & -> & ->) | [(_ & -> & ->) |
          (cl & l & _ & -> & _ & [-> | [data ->]])]]];
      try (split; [done |]; split; [done |]; by exists rs).
    + split; [by right |]. split; [done |]. by exists rs.
    + split; [done |]. split; [done |].
      exists (rs ++ [chatRequest fl]). split.
      * simpl. unfold api_calls in *. rewrite omap_app, Hcalls. simpl.
        by rewrite map_app, Hac, (assoc_L (++)).
      * apply Forall_app. split; [done |]. by constructor.
  - split; [by left |]. split; [done |]. exists [].
    split; [by rewrite app_nil_r | constructor].
Qed.

(** ** What the settling of a request touches *)

Lemma settle_effect (h : Hook) (s : Settles) (w1 : World) :
  let w' := snd (triggerRequest_settle h s w1) in
  loading w' = false ∧
  store w' = store w1 ∧ messages w' = messages w1 ∧
  streamData w' = streamData w1 ∧
  input w' = input w1 ∧ ids w' = ids w1 ∧
  controllers w' = controllers w1 ∧
  (abortController w' = abortController w1 ∨ abortController w' = None) ∧
  aborted (trace w') = aborted (trace w1) ∧
  api_calls (trace w') = api_calls (trace w1).
Proof.
  unfold triggerRequest_settle, try_catch_finally, triggerRequest_catch,
    mbind, M_bind.
  destruct s as [| err]; simpl; [by repeat split; try right |].
  destruct err as [| name repr | name message]; simpl;
    [by repeat split; try left | |];
    (case_decide; [by repeat split; try right |]);
    destruct (onError h) as [f |]; simpl;
    try (by repeat split; try left).
  unfold call_onError, emit, modify, mbind, M_bind. simpl.
  destruct (f (JsError name message)); simpl;
    unfold aborted, api_calls; rewrite !omap_app; simpl;
    rewrite !app_nil_r; by repeat split; try left.
Qed.

Lemma aborted_CallApi (calls : list Call) :
  Forall is_CallApi calls → aborted calls = [].
Proof.
  induction 1 as [| c calls Hc _ IH]; [reflexivity |].
  by destruct c.
Qed.

(** ** One request, start to end *)

Lemma triggerRequest_summary (h : Hook) (run : StreamRun)
    (chatRequest : ChatRequest.t) (w : World) :
  let w' := snd (triggerRequest h run chatRequest w) in
  loading w' = false ∧ input w' = input w ∧ ids w' = ids w ∧
  controllers w' = S (controllers w) ∧
  (abortController w' = Some (controllers w) ∨ abortController w' = None) ∧
  aborted (trace w') = aborted (trace w) ∧
  (∀ k, k ≠ key h → store w' !! k = store w !! k) ∧
  (cache_synced h w → cache_synced h w') ∧
  data_list w `prefix_of` data_list w' ∧
  ∃ rs, api_calls (trace w') =
          api_calls (trace w) ++
          map (λ r, api_call h r (Some (controllers w))) rs ∧
        Forall (held_request chatRequest (early run ++ late run)) rs.
Proof.
  intros w'. subst w'.
  destruct (triggerRequest_stream h run chatRequest w)
    as (fl1 & w1 & Hsteps & ->).
  destruct (settle_effect h (settles run) w1)
    as (Hl & Hst & Hms & Hsd & Hin & Hids & Hcs & Hac & Hab & Hapi).
  destruct (stream_steps_spec h (early run ++ late run)
              {| chatRequest := chatRequest; call := None |}
              (entered chatRequest w))
    as (fl2 & w2 & Hsteps' & _ & _ & Hin1 & Hac1 & Hcs1 & Hids1 & cs & Ht & Hcalls).
  rewrite Hsteps in Hsteps'. injection Hsteps' as <- <-.
  destruct (stream_steps_cache h _ _ _ _ _ Hsteps) as [Hother Hsync].
  pose proof Hsteps as Hdata.
  apply stream_steps_data in Hdata; [| by intros cl [=]].
  destruct (stream_steps_api_calls h _ _ _ _ _ Hsteps) as (rs & Hrs & Hheld).
  simpl in *.
  split; [done |]. split; [congruence |]. split; [congruence |].
  split; [congruence |].
  split; [destruct Hac as [-> | ->]; [left; congruence | by right] |].
  split.
  { rewrite Hab, Ht. unfold aborted. rewrite !omap_app. simpl.
    fold (aborted cs). by rewrite (aborted_CallApi cs Hcalls), !app_nil_r. }
  split; [by rewrite Hst |].
  split.
  { intros Hs. unfold cache_synced. rewrite Hst, Hms. by apply Hsync. }
  split.
  { unfold data_list in *. by rewrite Hsd. }
  exists rs. split; [| done].
  rewrite Hapi, Hrs. unfold api_calls. rewrite omap_app. simpl.
  by rewrite app_nil_r.
Qed.

(** X1: every [callApi] a request makes is handed the hook's endpoint
    and credentials and the controller created for this very request,
    whatever the collaborator does. *)
Theorem callApi_gets_request_controller (h : Hook) (run : StreamRun)
    (chatRequest : ChatRequest.t) (w : World) :
  ∃ new,
    api_calls (trace (snd (triggerRequest h run chatRequest w))) =
      api_calls (trace w) ++ new ∧
    Forall (λ a, ApiCall.api a = api h ∧
                 ApiCall.credentials a = credentials h ∧
                 ApiCall.abortController a = Some (controllers w)) new.
Proof.
  destruct (triggerRequest_summary h run chatRequest w)
    as (_ & _ & _ & _ & _ & _ & _ & _ & _ & rs & Hcalls & _).
  eexists. split; [exact Hcalls |].
  apply Forall_map, Forall_forall. by intros r _.
Qed.

(** X2: unless [sendExtraMessageFields] is set, no message handed to
    [callApi] carries an id or a creation time. *)
Theorem callApi_payload_hides_ids (h : Hook) (run : StreamRun)
    (chatRequest : ChatRequest.t) (w : World) :
  sendExtraMessageFields h = false →
  ∃ new,
    api_calls (trace (snd (triggerRequest h run chatRequest w))) =
      api_calls (trace w) ++ new ∧
    Forall (λ a, Forall (λ m, Message.id m = None ∧
                              Message.createdAt m = None)
                        (ApiCall.messages a)) new.
Proof.
  intros Hflag.
  destruct (triggerRequest_summary h run chatRequest w)
    as (_ & _ & _ & _ & _ & _ & _ & _ & _ & rs & Hcalls & _).
  eexists. split; [exact Hcalls |].
  apply Forall_map, Forall_forall. intros r _. simpl.
  unfold constructedMessagesPayload. rewrite Hflag.
  apply Forall_map, Forall_forall. by intros m _.
Qed.

(** X3: with [sendExtraMessageFields] set, what [callApi] is handed is
    the message list of a request the activation held, as it is; and
    without it the list has the same length, roles and contents. *)
Theorem callApi_payload_follows_request (h : Hook) (run : StreamRun)
    (chatRequest : ChatRequest.t) (w : World) :
  ∃ new,
    api_calls (trace (snd (triggerRequest h run chatRequest w))) =
      api_calls (trace w) ++ new ∧
    Forall (λ a, ∃ r,
              held_request chatRequest (early run ++ late run) r ∧
              (sendExtraMessageFields h = true →
               ApiCall.messages a = ChatRequest.messages r) ∧
              map Message.role (ApiCall.messages a) =
                map Message.role (ChatRequest.messages r) ∧
              map Message.content (ApiCall.messages a) =
                map Message.content (ChatRequest.messages r)) new.
Proof.
  destruct (triggerRequest_summary h run chatRequest w)
    as (_ & _ & _ & _ & _ & _ & _ & _ & _ & rs & Hcalls & Hheld).
  eexists. split; [exact Hcalls |].
  apply Forall_map. eapply Forall_impl; [exact Hheld |].
  intros r Hr. exists r. split; [done |]. simpl.
  unfold constructedMessagesPayload.
  destruct (sendExtraMessageFields h); [done |].
  split; [done |].
  split; rewrite <- list_fmap_compose; by apply list_fmap_ext.
Qed.

(** A request only ever adds to the stream data: what was there
    before is a prefix of what is there afterwards. *)
Lemma triggerRequest_stream_data_grows (h : Hook) (run : StreamRun)
    (chatRequest : ChatRequest.t) (w : World) :
  data_list w `prefix_of`
  data_list (snd (triggerRequest h run chatRequest w)).
Proof.
  by destruct (triggerRequest_summary h run chatRequest w)
    as (_ & _ & _ & _ & _ & _ & _ & _ & Hdata & _).
Qed.

(** ** What is sent along: body and headers *)



(** ** The callbacks of one [callApi] *)

Lemma stream_steps_same_call (h : Hook) (es : list StreamEvent) (fl : Flight)
    (w : World) (fl' : Flight) (w' : World) :
  same_call es →
  stream_steps h fl es w = (Ok fl', w') →
  call fl' = call fl.
Proof.
  intros Hsame Hrun.
  apply (stream_steps_invariant h es (λ fl1 _, call fl1 = call fl)) in Hrun;
    [done | | done | done].
  intros fl0 e w0 fl1 w1 He Hcall Hstep.
  destruct (stream_step_cases h fl0 e w0 fl1 w1 Hstep)
    as [[-> ->] | [(r & _ & -> & ->) | [(-> & _ & _) |
        (cl & l & _ & -> & _)]]]; try done.
Qed.

(** After a [getStreamedResponse] and any callbacks of that call, the
    callbacks still refer to what the call captured: the request of
    that moment and the messages and stream data it found. *)
Lemma stream_steps_get_then (h : Hook) (es : list StreamEvent) (fl : Flight)
    (w : World) :
  same_call es →
  ∃ fl' w',
    stream_steps h fl (InvokeGetStreamedResponse :: es) w = (Ok fl', w') ∧
    call fl' = Some (ApiClosure.mk (chatRequest fl) (streamData w) (messages w)).
Proof.
  intros Hsame.
  cbn [stream_steps]. unfold mbind at 1, M_bind at 1.
  rewrite stream_step_get.
  match goal with
  | |- context [stream_steps h ?fl1 es ?w1] =>
      destruct (stream_steps_spec h es fl1 w1) as (fl' & w' & Hrun & _);
      pose proof (stream_steps_same_call h es fl1 w1 fl' w' Hsame Hrun) as Hcall
  end.
  exists fl', w'. split; [done |]. by rewrite Hcall.
Qed.

(** X5: for a request in which the collaborator calls
    [getStreamedResponse] exactly once, before any other callback, and
    whose last callback is [restoreMessagesOnFailure], the request
    leaves the message store as it found it, whatever was streamed in
    between and however the promise settles; the hook's cache entry
    holds that list too. *)
Theorem restore_undoes_the_request (h : Hook) (run : StreamRun)
    (chatRequest : ChatRequest.t) (w : World) (es : list StreamEvent) :
  early run ++ late run =
    InvokeGetStreamedResponse :: es ++ [InvokeRestoreMessagesOnFailure] →
  same_call es →
  let w' := snd (triggerRequest h run chatRequest w) in
  messages w' = messages w ∧ store w' !! key h = Some (messages w).
Proof.
  intros Hrun Hsame w'. subst w'.
  destruct (triggerRequest_stream h run chatRequest w)
    as (fl1 & w1 & Hsteps & ->).
  destruct (settle_effect h (settles run) w1) as (_ & -> & -> & _).
  rewrite Hrun, app_comm_cons, stream_steps_app in Hsteps.
  unfold mbind, M_bind in Hsteps.
  destruct (stream_steps_get_then h es
              {| chatRequest := chatRequest; call := None |}
              (entered chatRequest w) Hsame) as (fl2 & w2 & Hget & Hcall).
  rewrite Hget in Hsteps. cbn [stream_steps] in Hsteps.
  unfold mbind, M_bind, mret, M_ret in Hsteps.
  rewrite (stream_step_restore h fl2 _ w2 Hcall) in Hsteps.
  injection Hsteps as <- <-. simpl.
  split; [done | apply lookup_insert_eq].
Qed.

(** X6: each [onUpdate] replaces what the one before showed: after the
    last one the store holds the messages of the request as it was when
    [getStreamedResponse] was called, followed by the merged messages
    of that last update, and the stream data found at that call followed
    by the data of that last update.  A request handed to
    [updateChatRequest] in between plays no part. *)
Theorem last_update_wins (h : Hook) (run : StreamRun)
    (chatRequest : ChatRequest.t) (w : World) (es : list StreamEvent)
    (merged : list Message.t) (data : option (list JSONValue)) :
  early run ++ late run =
    InvokeGetStreamedResponse :: es ++ [InvokeOnUpdate merged data] →
  same_call es →
  let w' := snd (triggerRequest h run chatRequest w) in
  messages w' = ChatRequest.messages chatRequest ++ merged ∧
  streamData w' = Some (data_list w ++ default [] data).
Proof.
  intros Hrun Hsame w'. subst w'.
  destruct (triggerRequest_stream h run chatRequest w)
    as (fl1 & w1 & Hsteps & ->).
  destruct (settle_effect h (settles run) w1) as (_ & _ & -> & -> & _).
  rewrite Hrun, app_comm_cons, stream_steps_app in Hsteps.
  unfold mbind, M_bind in Hsteps.
  destruct (stream_steps_get_then h es
              {| chatRequest := chatRequest; call := None |}
              (entered chatRequest w) Hsame) as (fl2 & w2 & Hget & Hcall).
  rewrite Hget in Hsteps. cbn [stream_steps] in Hsteps.
  unfold mbind, M_bind, mret, M_ret in Hsteps.
  rewrite (stream_step_onUpdate h fl2 _ _ _ w2 Hcall) in Hsteps.
  by injection Hsteps as <- <-.
Qed.

(** ** Any sequence of uses of the hook *)

Lemma action_effect_refl (h : Hook) (w : World) : action_effect h w w.
Proof.
  split; [done |]. split; [done |]. split; [done |]. split; [done |].
  reflexivity.
Qed.

Lemma action_effect_trans (h : Hook) (w1 w2 w3 : World) :
  action_effect h w1 w2 → action_effect h w2 w3 → action_effect h w1 w3.
Proof.
  intros (Hl & Ho & Hs & Hc & Hd) (Hl' & Ho' & Hs' & Hc' & Hd').
  split; [auto |]. split; [| split; [auto | split; [auto |]]].
  - intros k Hk. by rewrite Ho', Ho.
  - by etrans.
Qed.

(** A change that leaves the stores, the controller and the aborts as
    they were has every effect an action may have. *)
Lemma action_effect_same (h : Hook) (w w' : World) :
  loading w' = loading w → store w' = store w → messages w' = messages w →
  streamData w' = streamData w →
  abortController w' = abortController w →
  controllers w' = controllers w →
  aborted (trace w') = aborted (trace w) →
  action_effect h w w'.
Proof.
  intros Hl Hst Hms Hsd Hac Hcs Hab.
  unfold action_effect, cache_synced, controllers_ok, data_list.
  rewrite Hl, Hst, Hms, Hsd, Hac, Hcs, Hab.
  split; [done |]. split; [done |]. split; [done |]. split; [done |].
  reflexivity.
Qed.

Lemma triggerRequest_action_effect (h : Hook) (run : StreamRun)
    (chatRequest : ChatRequest.t) (w : World) :
  action_effect h w (snd (triggerRequest h run chatRequest w)).
Proof.
  destruct (triggerRequest_summary h run chatRequest w)
    as (Hl & _ & _ & Hcs & Hac & Hab & Hother & Hsync & Hdata & _).
  split; [done |]. split; [done |]. split; [done |]. split; [| done].
  intros (Hheld & Hcreated & Hnodup).
  unfold controllers_ok. rewrite Hab, Hcs.
  split; [| split; [| done]].
  - intros c Hc. destruct Hac as [Hac | Hac]; rewrite Hac in Hc; [| done].
    injection Hc as <-. split; [lia |].
    intros Hin. apply Hcreated in Hin. lia.
  - intros c Hin. apply Hcreated in Hin. lia.
Qed.

Lemma stop_action_effect (h : Hook) (w : World) :
  action_effect h w (snd (stop w)).
Proof.
  unfold stop, gets, emit, modify, mbind, M_bind.
  destruct (abortController w) as [c |] eqn:Hac; simpl;
    [| apply action_effect_refl].
  split; [done |]. split; [done |]. split; [done |]. split; [| done].
  intros (Hheld & Hcreated & Hnodup).
  destruct (Hheld c Hac) as [Hlt Hnot].
  unfold controllers_ok, aborted. simpl. rewrite omap_app. simpl.
  fold (aborted (trace w)).
  split; [done |]. split.
  - intros c' [Hin | Hin%list_elem_of_singleton]%elem_of_app;
      [by apply Hcreated | by subst].
  - apply NoDup_app. split; [done |]. split; [| apply NoDup_singleton].
    intros c' Hin ->%list_elem_of_singleton. done.
Qed.

Lemma setMessages_action_effect (h : Hook) (msgs : list Message.t) (w : World) :
  action_effect h w (snd (setMessages h msgs w)).
Proof.
  split; [done |]. split; [| split; [| done]].
  - intros k Hk. simpl. apply lookup_insert_ne. congruence.
  - intros _. unfold cache_synced. simpl. apply lookup_insert_eq.
Qed.

Section Sequences.

Variable nanoid : nat → string.

(** [append] is [triggerRequest] on some request, after at most the
    drawing of one identifier. *)
Lemma append_cases (h : Hook) (run : StreamRun) (message : Message.t)
    (o : ChatRequestOptions.t) (w : World) :
  ∃ r w0, append nanoid h run message o w = triggerRequest h run r w0 ∧
          (w0 = w ∨ w0 = set_ids (S (ids w)) w).
Proof.
  unfold append, mbind, M_bind.
  destruct (no_id message) eqn:Hno.
  - rewrite assign_id_fresh by done. eexists _, _. split; [reflexivity |].
    by right.
  - rewrite assign_id_keeps by done. eexists _, _. split; [reflexivity |].
    by left.
Qed.

(** [reload] does nothing or is [triggerRequest] on some request. *)
Lemma reload_cases (h : Hook) (run : StreamRun) (o : ChatRequestOptions.t)
    (w : World) :
  reload h run o w = (Ok Null, w) ∨
  ∃ r, reload h run o w = triggerRequest h run r w.
Proof.
  unfold reload, gets, mbind, M_bind.
  case_decide; [by left |]. right.
  case_decide; by eexists.
Qed.

Lemma perform_action_effect (h : Hook) (a : Action) (w : World) :
  action_effect h w (perform nanoid h a w).
Proof.
  destruct a as [run m o | run o | | msgs | text | run now o]; simpl.
  - destruct (append_cases h run m o w) as (r & w0 & -> & [-> | ->]).
    + apply triggerRequest_action_effect.
    + eapply action_effect_trans; [| apply triggerRequest_action_effect].
      by apply action_effect_same.
  - destruct (reload_cases h run o w) as [-> | [r ->]].
    + apply action_effect_refl.
    + apply triggerRequest_action_effect.
  - apply stop_action_effect.
  - apply setMessages_action_effect.
  - by apply action_effect_same.
  - destruct (decide (input w = "")) as [Hin | Hin].
    + unfold handleSubmit, emit, modify, gets, mbind, M_bind. simpl.
      rewrite decide_True by done. simpl.
      apply action_effect_same; try done.
      unfold aborted. simpl. rewrite omap_app. simpl. by rewrite app_nil_r.
    + rewrite handleSubmit_as_append by done. simpl.
      destruct (append_cases h run
                  (Message.mk None user (input w) None None (Some now)) o
                  (set_trace (trace w ++ [CallPreventDefault]) w))
        as (r & w0 & -> & Hw0).
      eapply action_effect_trans;
        [| eapply action_effect_trans;
           [apply (triggerRequest_action_effect h run r w0) |]].
      * destruct Hw0 as [-> | ->]; apply action_effect_same; try done;
          unfold aborted; simpl; rewrite omap_app; simpl;
          by rewrite app_nil_r.
      * by apply action_effect_same.
Qed.

Lemma perform_all_action_effect (h : Hook) (actions : list Action) :
  ∀ w, action_effect h w (perform_all nanoid h actions w).
Proof.
  induction actions as [| a actions IH]; intros w.
  - apply action_effect_refl.
  - simpl. eapply action_effect_trans; [apply perform_action_effect |].
    apply IH.
Qed.

(** X7: however the hook is used (requests that succeed, fail or are
    aborted, stops, edits of messages and input), once every request
    has settled the loading store is off again. *)
Theorem hook_is_never_left_loading (h : Hook) (actions : list Action)
    (w : World) :
  loading w = false →
  loading (perform_all nanoid h actions w) = false.
Proof.
  intros Hl. by destruct (perform_all_action_effect h actions w) as (H & _); auto.
Qed.

(** X8: the hook only ever writes the cache entry under its own key:
    every other entry of the module-level store is as it was. *)
Theorem hook_leaves_other_cache_entries (h : Hook) (actions : list Action)
    (w : World) (k : string) :
  k ≠ key h →
  store (perform_all nanoid h actions w) !! k = store w !! k.
Proof.
  intros Hk.
  destruct (perform_all_action_effect h actions w) as (_ & H & _); auto.
Qed.

(** X9: the cache entry of the hook follows the message store: if it
    holds the messages on display before, it does so after any use of
    the hook. *)
Theorem cache_follows_messages (h : Hook) (actions : list Action)
    (w : World) :
  cache_synced h w →
  cache_synced h (perform_all nanoid h actions w).
Proof.
  intros Hs.
  destruct (perform_all_action_effect h actions w) as (_ & _ & H & _); auto.
Qed.

(** X10: controllers are used sanely throughout: the hook holds and
    aborts only controllers it created, never holds one it has aborted,
    and never aborts one twice. *)
Theorem controllers_aborted_at_most_once (h : Hook) (actions : list Action)
    (w : World) :
  controllers_ok w →
  controllers_ok (perform_all nanoid h actions w).
Proof.
  intros Hc.
  destruct (perform_all_action_effect h actions w) as (_ & _ & _ & H & _); auto.
Qed.

(** X11: from one settled state to the next stream data only grows:
    over any use of the hook the data shown before is a prefix of the
    data shown after. *)
Theorem stream_data_only_grows (h : Hook) (actions : list Action)
    (w : World) :
  data_list w `prefix_of` data_list (perform_all nanoid h actions w).
Proof.
  by destruct (perform_all_action_effect h actions w) as (_ & _ & _ & _ & H).
Qed.

End Sequences.

(** ** Requests that overlap *)

Lemma triggerRequest_begin_spec (h : Hook) (run : StreamRun)
    (chatRequest : ChatRequest.t) (w : World) :
  ∃ fl1 w1,
    triggerRequest_begin h run chatRequest w = (Ok fl1, w1) ∧
    stream_frame (entered chatRequest w) w1.
Proof.
  unfold triggerRequest_begin, emit, modify, gets, new_AbortController,
    mbind, M_bind, mret, M_ret.
  simpl. fold (entered chatRequest w).
  destruct (stream_steps_spec h (early run)
              {| chatRequest := chatRequest; call := None |}
              (entered chatRequest w)) as (fl1 & w1 & -> & Hframe).
  by exists fl1, w1.
Qed.

Lemma triggerRequest_resume_spec (h : Hook) (run : StreamRun)
    (fl : Flight) (w : World) :
  ∃ fl2 w2,
    stream_steps h fl (late run) w = (Ok fl2, w2) ∧
    stream_frame w w2 ∧
    triggerRequest_resume h run fl w =
    triggerRequest_settle h (settles run) w2.
Proof.
  destruct (stream_steps_spec h (late run) fl w) as (fl2 & w2 & Hsteps & Hframe).
  exists fl2, w2. split; [done |]. split; [done |].
  unfold triggerRequest_resume, triggerRequest_settle, try_catch_finally,
    mbind, M_bind.
  rewrite Hsteps. by destruct (settles run).
Qed.

(** What a stream shows does not depend on the controller held or on
    the calls made so far. *)
Lemma stream_step_same_stores (h : Hook) (fl : Flight) (e : StreamEvent)
    (w w' : World) :
  same_stores w w' →
  ∃ fl1 w1 w1',
    stream_step h fl e w = (Ok fl1, w1) ∧
    stream_step h fl e w' = (Ok fl1, w1') ∧
    same_stores w1 w1'.
Proof.
  intros (Hst & Hms & Hsd).
  destruct e; unfold stream_step, with_call; try destruct (call fl);
    unfold getStreamedResponse, appendMessage, restoreMessagesOnFailure,
      onUpdate, mutate, originalMutate, emit, modify, gets, mbind, M_bind,
      mret, M_ret;
    simpl; rewrite <- ?Hst, <- ?Hms, <- ?Hsd;
    eexists _, _, _; (split; [reflexivity |]); (split; [reflexivity |]);
    repeat split; simpl; congruence.
Qed.

Lemma stream_steps_same_stores (h : Hook) (es : list StreamEvent) :
  ∀ (fl : Flight) (w w' : World),
    same_stores w w' →
    ∃ fl1 w1 w1',
      stream_steps h fl es w = (Ok fl1, w1) ∧
      stream_steps h fl es w' = (Ok fl1, w1') ∧
      same_stores w1 w1'.
Proof.
  induction es as [| e es IH]; intros fl w w' Hsame.
  - by exists fl, w, w'.
  - destruct (stream_step_same_stores h fl e w w' Hsame)
      as (fl1 & w1 & w1' & Hs & Hs' & Hsame1).
    destruct (IH fl1 w1 w1' Hsame1) as (fl2 & w2 & w2' & Hr & Hr' & Hsame2).
    exists fl2, w2, w2'. cbn [stream_steps]. unfold mbind, M_bind.
    by rewrite Hs, Hs'.
Qed.

(** X12: [stop()] while a request is suspended aborts the controller of
    that request, once; when the collaborator then rejects with an
    abort error the request ends quietly (null, no error, no controller
    held, loading off), and the messages streamed so far stay: the
    store shows what it would show had [stop] not been called. *)
Theorem stop_while_suspended (h : Hook) (run : StreamRun)
    (chatRequest : ChatRequest.t) (w : World) (err : JsValue) :
  settles run = Rejects err →
  js_name err = Some "AbortError" →
  ∃ fl1 w1,
    triggerRequest_begin h run chatRequest w = (Ok fl1, w1) ∧
    let w2 := snd (stop w1) in
    let w3 := snd (triggerRequest_resume h run fl1 w2) in
    fst (triggerRequest_resume h run fl1 w2) = Ok Null ∧
    aborted (trace w3) = aborted (trace w) ++ [controllers w] ∧
    abortController w3 = None ∧ error w3 = None ∧ loading w3 = false ∧
    messages w3 = messages (snd (triggerRequest h run chatRequest w)).
Proof.
  intros Hs Hname.
  destruct (triggerRequest_begin_spec h run chatRequest w)
    as (fl1 & w1 & Hbegin & _ & He & _ & Hac & _ & _ & cs & Ht & Hcs).
  exists fl1, w1. split; [done |]. simpl in *.
  assert (stop w1 =
          (Ok tt, set_abortController None
                    (set_trace (trace w1 ++ [CallAbort (controllers w)]) w1)))
    as Hstop.
  { unfold stop, gets, emit, modify, mbind, M_bind. by rewrite Hac. }
  rewrite Hstop. simpl.
  set (w2 := set_abortController None _).
  destruct (triggerRequest_resume_spec h run fl1 w2)
    as (fl3 & w3 & Hsteps & (_ & He3 & _ & _ & _ & _ & cs3 & Ht3 & Hcs3) & ->).
  rewrite Hs, (settle_abort h err w3 Hname). simpl.
  split; [done |]. split.
  { rewrite Ht3. subst w2. simpl. rewrite Ht.
    unfold aborted. rewrite !omap_app. simpl.
    fold (aborted cs) (aborted cs3).
    by rewrite (aborted_CallApi cs Hcs), (aborted_CallApi cs3 Hcs3),
      !app_nil_r. }
  split; [done |]. split; [by rewrite He3 |]. split; [done |].
  rewrite triggerRequest_split. unfold mbind, M_bind. rewrite Hbegin.
  destruct (triggerRequest_resume_spec h run fl1 w1)
    as (fl4 & w4 & Hsteps4 & _ & ->).
  destruct (settle_effect h (settles run) w4) as (_ & _ & -> & _).
  destruct (stream_steps_same_stores h (late run) fl1 w1 w2)
    as (fl5 & w5 & w5' & H5 & H5' & (_ & Hms & _)); [done |].
  congruence.
Qed.

(** X13: a request started while another is suspended takes over the
    controller variable without aborting the first one's controller.
    When the first request then resolves it clears the variable and
    the loading store although the second is still under way, and
    [stop()] no longer reaches the second request. *)
Theorem second_request_takes_controller (h : Hook) (run1 run2 : StreamRun)
    (r1 r2 : ChatRequest.t) (w : World) :
  settles run1 = Resolves →
  ∃ fl1 w1 fl2 w2,
    triggerRequest_begin h run1 r1 w = (Ok fl1, w1) ∧
    triggerRequest_begin h run2 r2 w1 = (Ok fl2, w2) ∧
    abortController w2 = Some (S (controllers w)) ∧
    aborted (trace w2) = aborted (trace w) ∧
    let w3 := snd (triggerRequest_resume h run1 fl1 w2) in
    abortController w3 = None ∧ loading w3 = false ∧
    stop w3 = (Ok tt, w3).
Proof.
  intros Hs.
  destruct (triggerRequest_begin_spec h run1 r1 w)
    as (fl1 & w1 & Hb1 & _ & _ & _ & Hac1 & Hc1 & _ & cs1 & Ht1 & Hcs1).
  destruct (triggerRequest_begin_spec h run2 r2 w1)
    as (fl2 & w2 & Hb2 & _ & _ & _ & Hac2 & Hc2 & _ & cs2 & Ht2 & Hcs2).
  exists fl1, w1, fl2, w2. simpl in *.
  split; [done |]. split; [done |].
  split; [by rewrite Hac2, Hc1 |]. split.
  { rewrite Ht2, Ht1. unfold aborted. rewrite !omap_app. simpl.
    fold (aborted cs1) (aborted cs2).
    by rewrite (aborted_CallApi cs1 Hcs1), (aborted_CallApi cs2 Hcs2),
      !app_nil_r. }
  destruct (triggerRequest_resume_spec h run1 fl1 w2)
    as (fl3 & w3 & _ & _ & ->).
  rewrite Hs, settle_resolves. simpl.
  by repeat split.
Qed.

(** ** What the promise of a request settles to *)

(** X14: a failure that is reported does not reject the promise of
    [triggerRequest] (and so of [append] and [reload]): for a rejection
    that is neither nullish nor an abort, with [onError] returning
    normally where it is called, the promise resolves, to undefined
    rather than to the null of a success or an abort. *)
Theorem reported_failure_resolves_undefined (h : Hook) (run : StreamRun)
    (chatRequest : ChatRequest.t) (w : World) (err : JsValue) :
  settles run = Rejects err →
  err ≠ JsNullish →
  js_name err ≠ Some "AbortError" →
  onError_returns h err →
  fst (triggerRequest h run chatRequest w) = Ok Undefined.
Proof.
  intros Hs Hnull Hname Hret.
  destruct (triggerRequest_unfold h run chatRequest w) as (w1 & _ & ->).
  rewrite Hs.
  unfold triggerRequest_settle, try_catch_finally, triggerRequest_catch,
    mbind, M_bind.
  destruct err as [| name repr | name message]; [done | |];
    simpl in Hname |- *; (case_decide; [done |]);
    destruct (onError h) as [f |] eqn:Hf; simpl; try done.
  unfold call_onError, emit, modify, mbind, M_bind. simpl.
  by rewrite (Hret f Hf eq_refl).
Qed.

(** ** Identifiers *)

Section Identifiers.

Variable nanoid : nat → string.

(** X15: a message that comes with a non-empty id is appended as it
    is: the one request triggered has as its messages the current
    messages followed by that message, and no identifier is drawn. *)
Theorem append_keeps_given_id (h : Hook) (run : StreamRun)
    (message : Message.t) (o : ChatRequestOptions.t) (w : World) (i : string) :
  Message.id message = Some i →
  i ≠ "" →
  let request :=
    {| ChatRequest.messages := messages w ++ [message];
       ChatRequest.options := ChatRequestOptions.options o;
       ChatRequest.functions := ChatRequestOptions.functions o;
       ChatRequest.function_call := ChatRequestOptions.function_call o |} in
  let w' := snd (append nanoid h run message o w) in
  append nanoid h run message o w = triggerRequest h run request w ∧
  map ChatRequest.messages (triggered (trace w')) =
    map ChatRequest.messages (triggered (trace w)) ++
    [messages w ++ [message]] ∧
  ids w' = ids w.
Proof.
  intros Hid Hi request w'.
  assert (no_id message = false) as Hno.
  { unfold no_id. rewrite Hid. by apply bool_decide_eq_false. }
  assert (append nanoid h run message o w = triggerRequest h run request w)
    as Happ.
  { unfold append, mbind, M_bind. by rewrite assign_id_keeps. }
  subst w'. rewrite Happ.
  split; [done |]. split.
  - by rewrite triggerRequest_triggered, map_app.
  - by destruct (triggerRequest_summary h run request w) as (_ & _ & ? & _).
Qed.

(** X16: an id that is the empty string counts as no id: the one
    request triggered has as its messages the current messages followed
    by the message with a generated identifier in place of the empty
    one, and one identifier has been drawn. *)
Theorem append_replaces_empty_id (h : Hook) (run : StreamRun)
    (message : Message.t) (o : ChatRequestOptions.t) (w : World) :
  Message.id message = Some "" →
  let message' :=
    {| Message.id := Some (nanoid (ids w));
       Message.role := Message.role message;
       Message.content := Message.content message;
       Message.name := Message.name message;
       Message.function_call := Message.function_call message;
       Message.createdAt := Message.createdAt message |} in
  let w' := snd (append nanoid h run message o w) in
  map ChatRequest.messages (triggered (trace w')) =
    map ChatRequest.messages (triggered (trace w)) ++
    [messages w ++ [message']] ∧
  ids w' = S (ids w).
Proof.
  intros Hid message' w'. subst w'.
  rewrite append_fresh by (unfold no_id; by rewrite Hid).
  split.
  - by rewrite triggerRequest_triggered, map_app.
  - by destruct (triggerRequest_summary h run
                   (make_request (messages w ++ [message']) o)
                   (set_ids (S (ids w)) w)) as (_ & _ & ? & _).
Qed.

(** X17: what [append] adds is cached at once: when the collaborator
    calls [getStreamedResponse] before handing back its promise, then
    by the time [append] is suspended the hook's cache entry holds the
    earlier messages followed by the new one (with its id, generated
    where it had none), and loading is on. *)
Theorem append_is_optimistic (h : Hook) (run : StreamRun)
    (message : Message.t) (o : ChatRequestOptions.t) (w : World) :
  early run = [InvokeGetStreamedResponse] →
  let generated :=
    {| Message.id := Some (nanoid (ids w));
       Message.role := Message.role message;
       Message.content := Message.content message;
       Message.name := Message.name message;
       Message.function_call := Message.function_call message;
       Message.createdAt := Message.createdAt message |} in
  let message' :=
    match Message.id message with
    | Some i => if decide (i = "") then generated else message
    | None => generated
    end in
  ∃ fl1 w1,
    append_begin nanoid h run message o w = (Ok fl1, w1) ∧
    store w1 !! key h = Some (messages w ++ [message']) ∧
    loading w1 = true.
Proof.
  intros Hearly generated message'.
  unfold append_begin, triggerRequest_begin, mbind, M_bind.
  rewrite Hearly.
  destruct (no_id message) eqn:Hno.
  - rewrite assign_id_fresh by done.
    eexists _, _. split; [reflexivity |]. simpl.
    split; [| done]. rewrite lookup_insert_eq.
    subst message'. unfold no_id in Hno.
    destruct (Message.id message) as [i |]; [| done].
    apply bool_decide_eq_true in Hno. by rewrite decide_True.
  - rewrite assign_id_keeps by done.
    eexists _, _. split; [reflexivity |]. simpl.
    split; [| done]. rewrite lookup_insert_eq.
    subst message'. unfold no_id in Hno.
    destruct (Message.id message) as [i |]; [| done].
    apply bool_decide_eq_false in Hno. by rewrite decide_False.
Qed.

End Identifiers.

(** ** Chat ids and cache keys *)

(** X19: hooks made one after the other without an id (or with an
    empty one) get different chat ids, and with the same endpoint
    different cache keys; the counter moves on by one each time. *)
Theorem useChat_generated_ids_differ (o1 o2 : UseChatOptions.t)
    (uniqueId : nat) (store0 store1 : gmap string (list Message.t)) :
  UseChatOptions.id o1 = None ∨ UseChatOptions.id o1 = Some "" →
  UseChatOptions.id o2 = None ∨ UseChatOptions.id o2 = Some "" →
  let '(h1, _, uniqueId1) := useChat o1 uniqueId store0 in
  let '(h2, _, uniqueId2) := useChat o2 uniqueId1 store1 in
  uniqueId2 = S (S uniqueId) ∧
  chatId h1 ≠ chatId h2 ∧
  (UseChatOptions.api o1 = UseChatOptions.api o2 → key h1 ≠ key h2).
Proof.
  intros H1 H2. unfold useChat.
  assert (∀ id n, id = None ∨ id = Some "" →
            resolve_chatId id n = ("chat-" +:+ pretty n, S n)) as Hres.
  { intros id n [-> | ->]; [done |]. unfold resolve_chatId.
    by rewrite decide_True. }
  rewrite !Hres by done. simpl.
  split; [done |].
  assert ("chat-" +:+ pretty uniqueId ≠ "chat-" +:+ pretty (S uniqueId))
    as Hne.
  { intros Heq. apply (inj (String.append "chat-")) in Heq.
    apply (inj pretty) in Heq. lia. }
  split; [done |].
  intros Hapi. unfold key. simpl. rewrite Hapi.
  intros Heq. apply (inj (String.append _)) in Heq.
  by apply (inj (String.append "|")) in Heq.
Qed.

(** X20: hooks made with the same non-empty id and the same endpoint
    share one cache entry, whatever the counter stands at and without
    moving it: what one of them writes with [setMessages] is what the
    module-level store holds under the other's key. *)
Theorem useChat_same_id_shares_cache (o1 o2 : UseChatOptions.t) (i : string)
    (n1 n2 : nat) (store1 store2 : gmap string (list Message.t))
    (msgs : list Message.t) (w : World) :
  UseChatOptions.id o1 = Some i →
  UseChatOptions.id o2 = Some i →
  i ≠ "" →
  UseChatOptions.api o1 = UseChatOptions.api o2 →
  let '(h1, _, n1') := useChat o1 n1 store1 in
  let '(h2, _, n2') := useChat o2 n2 store2 in
  n1' = n1 ∧ n2' = n2 ∧ key h1 = key h2 ∧
  store (snd (setMessages h1 msgs w)) !! key h2 = Some msgs.
Proof.
  intros H1 H2 Hi Hapi. unfold useChat, resolve_chatId.
  rewrite H1, H2, Hapi, !decide_False by done. simpl.
  repeat split. apply lookup_insert_eq.
Qed.

Lemma string_append_assoc (s1 s2 s3 : string) :
  (s1 +:+ s2) +:+ s3 = s1 +:+ s2 +:+ s3.
Proof.
  induction s1 as [| a s1 IH]; [reflexivity |].
  unfold String.append; fold String.append. by f_equal.
Qed.

(** X21: the cache key joins endpoint and chat id with a bar and
    nothing tells a bar of the endpoint or of the id from the joining
    one: two hooks whose endpoint and id split the same text at
    different bars use the same cache entry. *)
Theorem cache_key_is_ambiguous (h1 h2 : Hook) (b : string) :
  api h1 = api h2 +:+ "|" +:+ b →
  chatId h2 = b +:+ "|" +:+ chatId h1 →
  key h1 = key h2.
Proof.
  intros Hapi Hid. unfold key. rewrite Hapi, Hid.
  by rewrite !string_append_assoc.
Qed.

(** X22: one request creates exactly one controller and aborts none;
    it leaves the input text alone and draws no identifier. *)
Theorem request_creates_one_controller (h : Hook) (run : StreamRun)
    (chatRequest : ChatRequest.t) (w : World) :
  let w' := snd (triggerRequest h run chatRequest w) in
  controllers w' = S (controllers w) ∧
  aborted (trace w') = aborted (trace w) ∧
  input w' = input w ∧ ids w' = ids w.
Proof.
  by destruct (triggerRequest_summary h run chatRequest w)
    as (_ & ? & ? & ? & _ & ? & _).
Qed.


(** ** The further theorems at sample inputs *)

Lemma callApi_payload_hides_ids_witness :
  ∃ new,
    api_calls (trace (snd (triggerRequest sample_hook (sample_run Resolves)
                             sample_request (sample_world [] "")))) =
      api_calls (trace (sample_world [] "")) ++ new ∧
    Forall (λ a, Forall (λ m, Message.id m = None ∧
                              Message.createdAt m = None)
                        (ApiCall.messages a)) new.
Proof.
  exact (callApi_payload_hides_ids sample_hook (sample_run Resolves)
           sample_request (sample_world [] "") eq_refl).
Defined.


Lemma restore_undoes_the_request_witness :
  messages (snd (triggerRequest sample_hook sample_failed_run sample_request
                   (sample_world [sample_user] "hi"))) = [sample_user].
Proof.
  refine (proj1 (restore_undoes_the_request sample_hook sample_failed_run
                   sample_request (sample_world [sample_user] "hi")
                   [InvokeAppendMessage sample_assistant] eq_refl _)).
  unfold same_call. intros Hin.
  apply list_elem_of_singleton in Hin. discriminate.
Defined.

Lemma last_update_wins_witness :
  messages (snd (triggerRequest sample_hook (sample_run Resolves)
                   sample_request (sample_world [] ""))) =
  [sample_user; sample_assistant].
Proof.
  refine (proj1 (last_update_wins sample_hook (sample_run Resolves)
                   sample_request (sample_world [] "") []
                   [sample_assistant] None eq_refl _)).
  unfold same_call. apply not_elem_of_nil.
Defined.

Lemma hook_is_never_left_loading_witness :
  loading (perform_all sample_nanoid sample_hook sample_actions
             (sample_world [sample_user] "hello")) = false.
Proof.
  exact (hook_is_never_left_loading sample_nanoid sample_hook sample_actions
           (sample_world [sample_user] "hello") eq_refl).
Defined.

Lemma hook_leaves_other_cache_entries_witness :
  store (perform_all sample_nanoid sample_hook sample_actions
           (sample_world [sample_user] "hello")) !! "/api/chat|chat-7" =
  store (sample_world [sample_user] "hello") !! "/api/chat|chat-7".
Proof.
  refine (hook_leaves_other_cache_entries sample_nanoid sample_hook
            sample_actions (sample_world [sample_user] "hello")
            "/api/chat|chat-7" _).
  intros Heq. vm_compute in Heq. discriminate.
Defined.

Lemma cache_follows_messages_witness :
  cache_synced sample_hook
    (perform_all sample_nanoid sample_hook sample_actions
       (snd (setMessages sample_hook [sample_user] (sample_world [] "hello")))).
Proof.
  refine (cache_follows_messages sample_nanoid sample_hook sample_actions
            (snd (setMessages sample_hook [sample_user]
                    (sample_world [] "hello"))) _).
  unfold cache_synced. simpl. apply lookup_insert_eq.
Defined.

Lemma controllers_aborted_at_most_once_witness :
  controllers_ok
    (perform_all sample_nanoid sample_hook sample_actions
       (sample_world [sample_user] "hello")).
Proof.
  refine (controllers_aborted_at_most_once sample_nanoid sample_hook
            sample_actions (sample_world [sample_user] "hello") _).
  unfold controllers_ok. simpl.
  split; [intros c Hc; discriminate |].
  split; [intros c Hin; by apply elem_of_nil in Hin | constructor].
Defined.

Lemma stop_while_suspended_witness :
  ∃ fl1 w1,
    triggerRequest_begin sample_hook (sample_run (Rejects sample_abort))
      sample_request (sample_world [] "") = (Ok fl1, w1) ∧
    aborted (trace (snd (triggerRequest_resume sample_hook
                           (sample_run (Rejects sample_abort)) fl1
                           (snd (stop w1))))) = [0].
Proof.
  destruct (stop_while_suspended sample_hook (sample_run (Rejects sample_abort))
              sample_request (sample_world [] "") sample_abort
              eq_refl eq_refl) as (fl1 & w1 & Hbegin & Hrest).
  cbv zeta in Hrest. destruct Hrest as (_ & Haborted & _).
  exists fl1, w1. split; [exact Hbegin | exact Haborted].
Defined.

Lemma second_request_takes_controller_witness :
  ∃ fl1 w1 fl2 w2,
    triggerRequest_begin sample_hook (sample_run Resolves) sample_request
      (sample_world [] "") = (Ok fl1, w1) ∧
    triggerRequest_begin sample_hook sample_failed_run sample_request w1 =
      (Ok fl2, w2) ∧
    abortController w2 = Some 1 ∧
    abortController
      (snd (triggerRequest_resume sample_hook (sample_run Resolves) fl1 w2)) =
      None.
Proof.
  destruct (second_request_takes_controller sample_hook (sample_run Resolves)
              sample_failed_run sample_request sample_request
              (sample_world [] "") eq_refl)
    as (fl1 & w1 & fl2 & w2 & Hb1 & Hb2 & Hheld & _ & Hrest).
  cbv zeta in Hrest. destruct Hrest as (Hcleared & _).
  exists fl1, w1, fl2, w2.
  split; [exact Hb1 |]. split; [exact Hb2 |].
  split; [exact Hheld | exact Hcleared].
Defined.

Lemma reported_failure_resolves_undefined_witness :
  fst (triggerRequest sample_hook (sample_run (Rejects sample_error))
         sample_request (sample_world [] "")) = Ok Undefined.
Proof.
  refine (reported_failure_resolves_undefined sample_hook
            (sample_run (Rejects sample_error)) sample_request
            (sample_world [] "") sample_error eq_refl _ _ _).
  - discriminate.
  - discriminate.
  - intros f Hf _. injection Hf as <-. reflexivity.
Defined.

Lemma append_keeps_given_id_witness :
  map ChatRequest.messages
    (triggered
       (trace (snd (append sample_nanoid sample_hook (sample_run Resolves)
                      sample_user ChatRequestOptions.empty
                      (sample_world [] ""))))) = [[sample_user]] ∧
  ids (snd (append sample_nanoid sample_hook (sample_run Resolves)
              sample_user ChatRequestOptions.empty (sample_world [] ""))) = 0.
Proof.
  refine (proj2 (append_keeps_given_id sample_nanoid sample_hook
                   (sample_run Resolves) sample_user ChatRequestOptions.empty
                   (sample_world [] "") "u1" eq_refl _)).
  discriminate.
Defined.

Lemma append_replaces_empty_id_witness :
  map ChatRequest.messages
    (triggered
       (trace (snd (append sample_nanoid sample_hook (sample_run Resolves)
                      (Message.mk (Some "") user "hello" None None None)
                      ChatRequestOptions.empty (sample_world [] ""))))) =
    [[Message.mk (Some "id-0") user "hello" None None None]] ∧
  ids (snd (append sample_nanoid sample_hook (sample_run Resolves)
              (Message.mk (Some "") user "hello" None None None)
              ChatRequestOptions.empty (sample_world [] ""))) = 1.
Proof.
  exact (append_replaces_empty_id sample_nanoid sample_hook
           (sample_run Resolves)
           (Message.mk (Some "") user "hello" None None None)
           ChatRequestOptions.empty (sample_world [] "") eq_refl).
Defined.

Lemma append_is_optimistic_witness :
  ∃ fl1 w1,
    append_begin sample_nanoid sample_hook (sample_run Resolves) sample_draft
      ChatRequestOptions.empty (sample_world [sample_user] "") = (Ok fl1, w1) ∧
    store w1 !! key sample_hook =
      Some [sample_user;
            Message.mk (Some "id-0") user "how are you?" None None None] ∧
    loading w1 = true.
Proof.
  exact (append_is_optimistic sample_nanoid sample_hook (sample_run Resolves)
           sample_draft ChatRequestOptions.empty
           (sample_world [sample_user] "") eq_refl).
Defined.

Lemma useChat_generated_ids_differ_witness :
  chatId (fst (fst (useChat sample_options 0 ∅))) ≠
  chatId (fst (fst (useChat sample_options 1 ∅))).
Proof.
  exact (proj1 (proj2 (useChat_generated_ids_differ sample_options
                         sample_options 0 ∅ ∅
                         (or_introl eq_refl) (or_introl eq_refl)))).
Defined.

Lemma useChat_same_id_shares_cache_witness :
  key (fst (fst (useChat (sample_room "room-1") 0 ∅))) =
  key (fst (fst (useChat (sample_room "room-1") 5 ∅))).
Proof.
  refine (proj1 (proj2 (proj2
            (useChat_same_id_shares_cache (sample_room "room-1")
               (sample_room "room-1") "room-1" 0 5 ∅ ∅ []
               (sample_world [] "") eq_refl eq_refl _ eq_refl)))).
  discriminate.
Defined.

Lemma cache_key_is_ambiguous_witness :
  key {| api := "/api|v2"; chatId := "room"; sendExtraMessageFields := false;
         onError := None; credentials := None; headers := None; body := None |}
  = key {| api := "/api"; chatId := "v2|room"; sendExtraMessageFields := false;
           onError := None; credentials := None; headers := None;
           body := None |}.
Proof.
  exact (cache_key_is_ambiguous
           {| api := "/api|v2"; chatId := "room";
              sendExtraMessageFields := false; onError := None;
              credentials := None; headers := None; body := None |}
           {| api := "/api"; chatId := "v2|room";
              sendExtraMessageFields := false; onError := None;
              credentials := None; headers := None; body := None |}
           "v2" eq_refl eq_refl).
Defined.

Lemma triggerRequest_resolves_witness :
  ∃ w', triggerRequest sample_hook (sample_run Resolves) sample_request
          (set_error (Some sample_error) (sample_world [] "")) = (Ok Null, w') ∧
        error w' = None ∧ abortController w' = None ∧ loading w' = false.
Proof.
  exact (triggerRequest_resolves sample_hook (sample_run Resolves)
           sample_request (set_error (Some sample_error) (sample_world [] ""))
           eq_refl).
Defined.

Lemma triggerRequest_nullish_rejection_witness :
  ∃ w', triggerRequest sample_hook (sample_run (Rejects JsNullish))
          sample_request (sample_world [] "") = (Throw TypeError_name, w') ∧
        error w' = None ∧ loading w' = false.
Proof.
  exact (triggerRequest_nullish_rejection sample_hook
           (sample_run (Rejects JsNullish)) sample_request
           (sample_world [] "") eq_refl).
Defined.

Lemma triggerRequest_onError_throws_witness :
  ∃ w', triggerRequest sample_throwing_hook (sample_run (Rejects sample_error))
          sample_request (sample_world [] "") =
          (Throw (JsPlain None "handler failed"), w') ∧
        error w' = None ∧ loading w' = false.
Proof.
  refine (triggerRequest_onError_throws sample_throwing_hook
            (sample_run (Rejects sample_error)) sample_request
            (sample_world [] "") (fun _ => Some (JsPlain None "handler failed"))
            "TypeError" "Failed to fetch" (JsPlain None "handler failed")
            eq_refl _ eq_refl eq_refl).
  discriminate.
Defined.
